(** * Resume layout normalisation: [preprocessResume]

    A shallow embedding of [pages/lib/resumePreprocess.ts] (the density
    estimator and the layout resolver) together with the properties the
    specification states about it.

    Conventions of the embedding.
    - A JavaScript string is the list of its UTF-16 code units; [length] is
      the [.length] of the source.
    - Numbers that are counts or lengths are [nat]; numbers that go through
      [Math.pow], [Math.round] and the font-size arithmetic are real numbers
      (IEEE rounding is not modelled).
    - [ResumeData] follows [types/resume.ts]: a field marked [?] there is an
      [option] here. *)

From Stdlib Require Import Reals Lra Lia Ascii String.
From stdpp Require Import gmap list strings.

(** ** Strings *)

Abbreviation code_unit := N (only parsing).
Abbreviation jstring := (list N) (only parsing).

(** An ASCII literal as a JavaScript string. *)
Definition lit (s : string) : jstring :=
  N_of_ascii <$> String.list_ascii_of_string s.

(** [WhiteSpace] and [LineTerminator] of ECMAScript, the code units that
    [String.prototype.trim] strips. *)
Definition is_white (c : code_unit) : bool :=
  ((9 <=? c) && (c <=? 13) || (c =? 32) || (c =? 160) || (c =? 0x1680)
   || (0x2000 <=? c) && (c <=? 0x200A) || (c =? 0x2028) || (c =? 0x2029)
   || (c =? 0x202F) || (c =? 0x205F) || (c =? 0x3000) || (c =? 0xFEFF))%N.

Fixpoint trimStart (s : jstring) : jstring :=
  match s with
  | [] => []
  | c :: s' => if is_white c then trimStart s' else s
  end.

Definition trimEnd (s : jstring) : jstring := rev (trimStart (rev s)).

(** [s.trim()] *)
Definition trim (s : jstring) : jstring := trimEnd (trimStart s).

(** [arr.join(sep)] on an array of strings. *)
Fixpoint join (sep : jstring) (l : list jstring) : jstring :=
  match l with
  | [] => []
  | [x] => x
  | x :: l' => x ++ sep ++ join sep l'
  end.

(** The literals of the source. *)
Definition SP : jstring := [32%N].                      (* " " *)
Definition DASH : jstring := [32; 0x2014; 32]%N.        (* " — " *)
Definition BULLET : jstring := [32; 0x2022; 32]%N.      (* " • " *)
Definition ELLIPSIS : jstring := [0x2026%N].            (* "…" *)

(** [Boolean(s)] for a string: the empty string is the only falsy one. *)
Definition truthy (s : jstring) : Prop := s ≠ [].

#[global] Instance truthy_dec s : Decision (truthy s).
Proof. unfold truthy. apply _. Defined.

(** [Array.from(new Set(l))]: the elements in order of first insertion. *)
Fixpoint Set_add_all (seen l : list jstring) : list jstring :=
  match l with
  | [] => seen
  | x :: l' => Set_add_all (if bool_decide (x ∈ seen) then seen else seen ++ [x]) l'
  end.

Definition Array_from_Set (l : list jstring) : list jstring := Set_add_all [] l.

(** ** The data model ([types/resume.ts]) *)

Module Exp.
Record t := mk
  { role : jstring; company : jstring; duration : jstring;
    description : list jstring }.
End Exp.

Module Edu.
Record t := mk { degree : jstring; school : jstring; year : jstring }.
End Edu.

Module Cert.
Record t := mk { name : jstring; year : option jstring }.
End Cert.

Module Vol.
Record t := mk
  { role : jstring; org : jstring; duration : option jstring;
    description : list jstring }.
End Vol.

Record Contact := mkContact
  { phone : option jstring; email : option jstring;
    address : option jstring; linkedin : option jstring }.

(** Layout hints that the template consumes. *)
Module Fonts.
Record t := mk
  { name : R; sectionTitle : R; body : R;
    sidebarTitle : R; sidebarBody : R; duration : R }.
End Fonts.
Abbreviation SectionFontSizes := Fonts.t.

Record LayoutHints := mkLayout
  { compactMode : bool;
    nameFontSize : R;
    maxExperienceItems : nat;
    maxBulletsPerExp : nat;
    maxEducationItems : nat;
    truncateCharPerLine : nat;
    sectionFontSizes : SectionFontSizes;
    sidebarWidthPx : nat }.

(** [ProcessedResume = ResumeData & { _layout?: LayoutHints }].  A
    [ResumeData] is a [ProcessedResume] whose [_layout] is whatever it is:
    the function never reads it. *)
Record ProcessedResume := mkResume
  { name : jstring;
    title : option jstring;
    photoUrl : option jstring;
    contact : Contact;
    summary : jstring;
    experience : list Exp.t;
    education : list Edu.t;
    certifications : option (list Cert.t);
    achivements : option (list jstring);
    volunteer : option (list Vol.t);
    skills : option (list jstring);
    softSkills : option (list jstring);
    languages : option (list jstring);
    interests : option (list jstring);
    _layout : option LayoutHints }.
Abbreviation ResumeData := ProcessedResume (only parsing).

(** Property assignments [data.f = v]. *)
Definition set_experience (v : list Exp.t) (d : ProcessedResume) :=
  mkResume (name d) (title d) (photoUrl d) (contact d) (summary d) v
    (education d) (certifications d) (achivements d) (volunteer d) (skills d)
    (softSkills d) (languages d) (interests d) (_layout d).
Definition set_education (v : list Edu.t) (d : ProcessedResume) :=
  mkResume (name d) (title d) (photoUrl d) (contact d) (summary d)
    (experience d) v (certifications d) (achivements d) (volunteer d)
    (skills d) (softSkills d) (languages d) (interests d) (_layout d).
Definition set_certifications (v : list Cert.t) (d : ProcessedResume) :=
  mkResume (name d) (title d) (photoUrl d) (contact d) (summary d)
    (experience d) (education d) (Some v) (achivements d) (volunteer d)
    (skills d) (softSkills d) (languages d) (interests d) (_layout d).
Definition set_achivements (v : list jstring) (d : ProcessedResume) :=
  mkResume (name d) (title d) (photoUrl d) (contact d) (summary d)
    (experience d) (education d) (certifications d) (Some v) (volunteer d)
    (skills d) (softSkills d) (languages d) (interests d) (_layout d).
Definition set_skills (v : list jstring) (d : ProcessedResume) :=
  mkResume (name d) (title d) (photoUrl d) (contact d) (summary d)
    (experience d) (education d) (certifications d) (achivements d)
    (volunteer d) (Some v) (softSkills d) (languages d) (interests d)
    (_layout d).
Definition set_softSkills (v : list jstring) (d : ProcessedResume) :=
  mkResume (name d) (title d) (photoUrl d) (contact d) (summary d)
    (experience d) (education d) (certifications d) (achivements d)
    (volunteer d) (skills d) (Some v) (languages d) (interests d) (_layout d).
Definition set_languages (v : list jstring) (d : ProcessedResume) :=
  mkResume (name d) (title d) (photoUrl d) (contact d) (summary d)
    (experience d) (education d) (certifications d) (achivements d)
    (volunteer d) (skills d) (softSkills d) (Some v) (interests d) (_layout d).
Definition set_layout (v : LayoutHints) (d : ProcessedResume) :=
  mkResume (name d) (title d) (photoUrl d) (contact d) (summary d)
    (experience d) (education d) (certifications d) (achivements d)
    (volunteer d) (skills d) (softSkills d) (languages d) (interests d)
    (Some v).

(** [x || []] on an optional array.  On a field that the type requires, and
    on a string [s] where the source defaults to the empty string, the
    guard returns its left operand and is not written. *)
Definition or_empty {A} (x : option (list A)) : list A := default [] x.

(** ** Helpers of the source *)

(** [const clamp = (v, a, b) => Math.max(a, Math.min(b, v))] *)
Definition clamp (v a b : R) : R := Rmax a (Rmin b v).

(** [Math.round]: the nearest integer, a tie going up. *)
Definition Math_round (x : R) : R := IZR (Zfloor (x + / 2)).

(** [Math.pow] at a positive base. *)
Definition Math_pow (x y : R) : R := Rpower x y.

(** [uniqStrings]: trim, drop the empty strings, keep first occurrences. *)
Definition uniqStrings (arr : option (list jstring)) : list jstring :=
  Array_from_Set (filter truthy (trim <$> or_empty arr)).

(* (exp || []).map(e => `${e.role} ${e.company} ${e.duration} ${(e.description || []).join(' ')}`).join(' ') *)
Definition joinExpText (exp : option (list Exp.t)) : jstring :=
  join SP ((λ e, Exp.role e ++ SP ++ Exp.company e ++ SP ++ Exp.duration e
                 ++ SP ++ join SP (Exp.description e))
           <$> or_empty exp).

(* (edu || []).map(e => `${e.degree} ${e.school} ${e.year}`).join(' ') *)
Definition joinEduText (edu : option (list Edu.t)) : jstring :=
  join SP ((λ e, Edu.degree e ++ SP ++ Edu.school e ++ SP ++ Edu.year e)
           <$> or_empty edu).

(* (arr || []).join(' ') *)
Definition joinSimple (arr : option (list jstring)) : jstring :=
  join SP (or_empty arr).

(** ** Density estimator (the character counts of [preprocessResume])

    One definition per local constant of the source, in its order. *)

Definition nameLen (data : ProcessedResume) : nat := length (name data).
Definition titleLen (data : ProcessedResume) : nat := length (default [] (title data)).
Definition summaryLen (data : ProcessedResume) : nat := length (summary data).
Definition expLen (data : ProcessedResume) : nat := length (joinExpText (Some (experience data))).
Definition eduLen (data : ProcessedResume) : nat := length (joinEduText (Some (education data))).
Definition skillsLen (data : ProcessedResume) : nat := length (joinSimple (skills data)).
Definition softLen (data : ProcessedResume) : nat := length (joinSimple (softSkills data)).
Definition achLen (data : ProcessedResume) : nat := length (joinSimple (achivements data)).
Definition langsLen (data : ProcessedResume) : nat := length (joinSimple (languages data)).
(* (data.certifications || []).map(c => (c.name || '') + (c.year || '')).join(' ').length *)
Definition certLen (data : ProcessedResume) : nat :=
  length (join SP ((λ c, Cert.name c ++ default [] (Cert.year c))
                   <$> or_empty (certifications data))).
(* (data.volunteer || []).map(v => `${v.role} ${v.org} ${(v.description || []).join(' ')}`).join(' ').length *)
Definition volunteerLen (data : ProcessedResume) : nat :=
  length (join SP ((λ v, Vol.role v ++ SP ++ Vol.org v ++ SP
                         ++ join SP (Vol.description v))
                   <$> or_empty (volunteer data))).

Definition totalChars (data : ProcessedResume) : nat :=
  nameLen data + titleLen data + summaryLen data + expLen data + eduLen data
  + skillsLen data + softLen data + achLen data + langsLen data + certLen data
  + volunteerLen data.

(** ** Layout resolver: thresholds, scale and font sizes *)

Definition TARGET_CHARS : nat := 3600.
Definition MEDIUM_CHARS : nat := 2200.
Definition COMPACT_CHAR_THRESHOLD : nat := 4200.

(* rawScale = TARGET_CHARS / Math.max(1, totalChars);
   globalScale = clamp(Math.pow(rawScale, 0.5), 0.7, 1) *)
Definition globalScale (totalChars : nat) : R :=
  let rawScale := (INR TARGET_CHARS / Rmax 1 (INR totalChars))%R in
  clamp (Math_pow rawScale 0.5) 0.7 1.

Definition sidebarPenalty (totalChars : nat) : R :=
  if COMPACT_CHAR_THRESHOLD <? totalChars then 0.88%R else 1%R.

(** The locals [compactMode] ... [sectionFontSizes] and the final [layout]
    object, as a function of the two counts they are computed from. *)
Definition layoutHints (nameLen totalChars : nat) : LayoutHints :=
  let compactMode := MEDIUM_CHARS <? totalChars in
  let globalScale := globalScale totalChars in
  let baseName := 40%R in
  let nameFontSize :=
    clamp (Math_round (baseName * globalScale
                       - (if 24 <? nameLen then (INR nameLen - 24) * 0.25 else 0))%R)
          16 48 in
  let baseSectionTitle := 14%R in
  let baseBody := 12%R in
  let baseSidebarTitle := 12%R in
  let baseSidebarBody := 11%R in
  let baseDuration := 10%R in
  let sidebarPenalty := sidebarPenalty totalChars in
  let sectionFontSizes :=
    Fonts.mk nameFontSize
      (clamp (Math_round (baseSectionTitle * globalScale)) 10 18)
      (clamp (Math_round (baseBody * globalScale)) 9 14)
      (clamp (Math_round (baseSidebarTitle * globalScale * sidebarPenalty)) 9 14)
      (clamp (Math_round (baseSidebarBody * globalScale * sidebarPenalty)) 8 12)
      (clamp (Math_round (baseDuration * globalScale)) 8 12) in
  let maxExperienceItems := if compactMode then 3 else 6 in
  let maxBulletsPerExp := if compactMode then 2 else 4 in
  let maxEducationItems := if compactMode then 2 else 6 in
  let truncateCharPerLine := if compactMode then 120 else 220 in
  mkLayout compactMode nameFontSize maxExperienceItems maxBulletsPerExp
    maxEducationItems truncateCharPerLine sectionFontSizes 180.

(** ** Layout resolver: caps, truncation and overflow *)

(** [if (entry) extraAchievements.push(entry)] *)
Definition push_truthy (acc : list jstring) (entry : jstring) : list jstring :=
  if decide (truthy entry) then acc ++ [entry] else acc.

(** The entry built for one overflowing experience: the body of the first
    [extras.forEach], up to the [push]. *)
Definition condenseExperience (maxBulletsPerExp : nat) (e : Exp.t) : jstring :=
  let title := trim (Exp.role e ++ DASH ++ Exp.company e) in
  let bullets := trim <$> take maxBulletsPerExp (Exp.description e) in
  join BULLET (filter truthy (title :: bullets)).

(** The entry built for one overflowing education: the body of the second
    [extras.forEach], up to the [push]. *)
Definition condenseEducation (ed : Edu.t) : jstring :=
  trim (Edu.degree ed ++ DASH ++ Edu.school ed ++ SP ++ trim (Edu.year ed)).

(** One bullet of a remaining entry: cut when over the line budget.
    [d.length > truncateCharPerLine ? d.slice(0, truncateCharPerLine - 1).trim() + '…' : d] *)
Definition truncateBullet (truncateCharPerLine : nat) (d : jstring) : jstring :=
  if truncateCharPerLine <? length d
  then trim (take (truncateCharPerLine - 1) d) ++ ELLIPSIS
  else d.

(** The arrow function mapped over the remaining experience entries.  The
    [description] of an [Exp.t] is a list, so [Array.isArray] holds. *)
Definition trimExperience (maxBulletsPerExp truncateCharPerLine : nat)
    (e : Exp.t) : Exp.t :=
  let desc := trim <$> take maxBulletsPerExp (Exp.description e) in
  Exp.mk (Exp.role e) (Exp.company e) (Exp.duration e)
         (truncateBullet truncateCharPerLine <$> desc).

(* c => ({ name: (c.name || '').trim(), year: (c.year || '').trim() }) *)
Definition normalizeCertification (c : Cert.t) : Cert.t :=
  Cert.mk (trim (Cert.name c)) (Some (trim (default [] (Cert.year c)))).

(** [JSON.parse(JSON.stringify(x))] on a record of strings, lists and
    finite numbers rebuilds the same value. *)
Definition JSON_clone (x : ProcessedResume) : ProcessedResume := x.

(** ** [preprocessResume], on values

    The local [data] is threaded through the assignments of the source. *)
Definition preprocessResume (input : ResumeData) : ProcessedResume :=
  let data := JSON_clone input in
  let layout := layoutHints (nameLen data) (totalChars data) in
  let compactMode := compactMode layout in
  let maxExperienceItems := maxExperienceItems layout in
  let maxBulletsPerExp := maxBulletsPerExp layout in
  let maxEducationItems := maxEducationItems layout in
  let truncateCharPerLine := truncateCharPerLine layout in
  let extraAchievements : list jstring := [] in
  (* ensure arrays are defined *)
  let data := set_experience (experience data) data in
  let data := set_education (education data) data in
  let '(data, extraAchievements) :=
    if maxExperienceItems <? length (experience data) then
      let extras := drop maxExperienceItems (experience data) in
      let data := set_experience (take maxExperienceItems (experience data)) data in
      (data, foldl (λ acc e, push_truthy acc (condenseExperience maxBulletsPerExp e))
                   extraAchievements extras)
    else (data, extraAchievements) in
  let '(data, extraAchievements) :=
    if maxEducationItems <? length (education data) then
      let extras := drop maxEducationItems (education data) in
      let data := set_education (take maxEducationItems (education data)) data in
      (data, foldl (λ acc ed, push_truthy acc (condenseEducation ed))
                   extraAchievements extras)
    else (data, extraAchievements) in
  let data :=
    set_experience
      (trimExperience maxBulletsPerExp truncateCharPerLine <$> experience data)
      data in
  let data :=
    set_certifications
      (match certifications data with
       | Some cs => take 20 (normalizeCertification <$> cs)
       | None => []
       end) data in
  let data := set_softSkills
                (take (if compactMode then 6 else 12) (uniqStrings (softSkills data)))
                data in
  let data := set_skills
                (take (if compactMode then 12 else 30) (uniqStrings (skills data)))
                data in
  let data := set_languages
                (take (if compactMode then 3 else 8) (uniqStrings (languages data)))
                data in
  let existingAch :=
    match achivements data with
    | Some a => trim <$> a
    | None => []
    end in
  let combined := filter truthy (Array_from_Set (existingAch ++ extraAchievements)) in
  let achCap := if compactMode then 6 else 12 in
  let data := set_achivements (take achCap combined) data in
  let data := set_layout layout data in
  data.

(** ** [preprocessResume], on references

    The caller passes a reference to a resume object.  The store maps
    references to resume objects; nested arrays are values, since the
    source only rebuilds them ([slice], [map], [filter], spread) and never
    updates one in place.  Every [data.f = v] of the source is a write to
    the object [data] refers to. *)
Module Heap.
Abbreviation loc := positive (only parsing).
Abbreviation heap := (gmap positive ProcessedResume) (only parsing).

(** Heap-passing computations; [None] is a dangling reference. *)
Definition M (A : Type) : Type := heap → option (A * heap).

#[global] Instance M_ret : MRet M := λ A a h, Some (a, h).
#[global] Instance M_bind : MBind M := λ A B f m h,
  match m h with
  | Some (a, h') => f a h'
  | None => None
  end.

(** Read the object behind a reference. *)
Definition load (l : loc) : M ProcessedResume :=
  λ h, (λ o, (o, h)) <$> h !! l.

(** [l.f = v], with [upd] the setter of [f] at [v]. *)
Definition assign (l : loc) (upd : ProcessedResume → ProcessedResume) : M unit :=
  λ h, (λ o, (tt, <[l := upd o]> h)) <$> h !! l.

(** A new object, at a reference not in use. *)
Definition alloc (o : ProcessedResume) : M loc :=
  λ h, let l := fresh (dom h) in Some (l, <[l := o]> h).

Definition preprocessResume (input : loc) : M loc :=
  (* const data = JSON.parse(JSON.stringify(input || {})): a reference is
     truthy, and the copy is a new object *)
  src ← load input;
  data ← alloc (JSON_clone src);
  d ← load data;
  let layout := layoutHints (nameLen d) (totalChars d) in
  let compactMode := compactMode layout in
  let maxExperienceItems := maxExperienceItems layout in
  let maxBulletsPerExp := maxBulletsPerExp layout in
  let maxEducationItems := maxEducationItems layout in
  let truncateCharPerLine := truncateCharPerLine layout in
  let extraAchievements : list jstring := [] in
  d ← load data; assign data (set_experience (experience d));;
  d ← load data; assign data (set_education (education d));;
  d ← load data;
  extraAchievements ←
    (if maxExperienceItems <? length (experience d) then
       let extras := drop maxExperienceItems (experience d) in
       assign data (set_experience (take maxExperienceItems (experience d)));;
       mret (foldl (λ acc e, push_truthy acc (condenseExperience maxBulletsPerExp e))
                   extraAchievements extras)
     else mret extraAchievements);
  d ← load data;
  extraAchievements ←
    (if maxEducationItems <? length (education d) then
       let extras := drop maxEducationItems (education d) in
       assign data (set_education (take maxEducationItems (education d)));;
       mret (foldl (λ acc ed, push_truthy acc (condenseEducation ed))
                   extraAchievements extras)
     else mret extraAchievements);
  d ← load data;
  assign data (set_experience
                 (trimExperience maxBulletsPerExp truncateCharPerLine
                  <$> experience d));;
  d ← load data;
  assign data (set_certifications
                 (match certifications d with
                  | Some cs => take 20 (normalizeCertification <$> cs)
                  | None => []
                  end));;
  d ← load data;
  assign data (set_softSkills
                 (take (if compactMode then 6 else 12) (uniqStrings (softSkills d))));;
  d ← load data;
  assign data (set_skills
                 (take (if compactMode then 12 else 30) (uniqStrings (skills d))));;
  d ← load data;
  assign data (set_languages
                 (take (if compactMode then 3 else 8) (uniqStrings (languages d))));;
  d ← load data;
  let existingAch :=
    match achivements d with
    | Some a => trim <$> a
    | None => []
    end in
  let combined := filter truthy (Array_from_Set (existingAch ++ extraAchievements)) in
  let achCap := if compactMode then 6 else 12 in
  assign data (set_achivements (take achCap combined));;
  assign data (set_layout layout);;
  mret data.
End Heap.

(** ** The two guards on [description], on untyped values

    The types are erased when the code runs, and the resume arrives as
    parsed JSON.  This module embeds [joinExpText] and the [description]
    expression of the arrow function that trims the remaining entries over
    JSON values built from [null], booleans, strings, arrays and objects,
    with the exceptions JavaScript raises. *)
Module Js.
#[warnings="-register-all"]
Inductive value :=
| Undefined
| Null
| Bool (b : bool)
| Str (s : jstring)
| Arr (elements : list value)
| Obj (fields : list (jstring * value)).

Inductive error := TypeError | SyntaxError.

Inductive completion (A : Type) :=
| Normal (a : A)
| Throw (e : error).
Arguments Normal {A} a.
Arguments Throw {A} e.

#[global] Instance completion_ret : MRet completion := λ A a, Normal a.
#[global] Instance completion_bind : MBind completion := λ A B f m,
  match m with
  | Normal a => f a
  | Throw e => Throw e
  end.

(** The own property [key] of an object (the keys of an object are
    distinct). *)
Fixpoint own (key : jstring) (fields : list (jstring * value)) : option value :=
  match fields with
  | [] => None
  | (k, v) :: fields' => if bool_decide (k = key) then Some v else own key fields'
  end.

(** [v.key] for the property names the embedded code reads ([experience],
    [role], [company], [duration], [description]): no prototype defines
    them, so only an own property of an object yields a value. *)
Definition Get (v : value) (key : jstring) : completion value :=
  match v with
  | Undefined | Null => Throw TypeError
  | Obj fields => Normal (default Undefined (own key fields))
  | Bool _ | Str _ | Arr _ => Normal Undefined
  end.

Definition ToBoolean (v : value) : bool :=
  match v with
  | Undefined | Null | Bool false | Str [] => false
  | _ => true
  end.

(** [v || d] *)
Definition or_else (v d : value) : value := if ToBoolean v then v else d.

(** [ToString], as a template literal applies it.  An array goes through
    [Array.prototype.join] with a comma; a plain object is
    ["[object Object]"], unless an own [toString] property (never callable
    in parsed JSON) hides [Object.prototype.toString], in which case no
    primitive is found. *)
Fixpoint ToString (v : value) : completion jstring :=
  match v with
  | Undefined => Normal (lit "undefined")
  | Null => Normal (lit "null")
  | Bool b => Normal (lit (if b then "true" else "false"))
  | Str s => Normal s
  | Arr l =>
      (fix join_comma (l : list value) : completion jstring :=
         match l with
         | [] => Normal []
         | x :: l' =>
             s ← match x with
                 | Undefined | Null => Normal []
                 | _ => ToString x
                 end;
             match l' with
             | [] => Normal s
             | _ => r ← join_comma l'; Normal (s ++ lit "," ++ r)
             end
         end) l
  | Obj fields =>
      match own (lit "toString") fields with
      | Some _ => Throw TypeError
      | None => Normal (lit "[object Object]")
      end
  end.

(** [v.join(sep)]: only an array has a callable [join]. *)
Definition Array_join (v : value) (sep : jstring) : completion jstring :=
  match v with
  | Arr l =>
      texts ← mapM (λ x, match x with
                         | Undefined | Null => Normal []
                         | _ => ToString x
                         end) l;
      Normal (join sep texts)
  | _ => Throw TypeError
  end.

(** [v.map(f)]: only an array has a callable [map]. *)
Definition Array_map {B} (v : value) (f : value → completion B) : completion (list B) :=
  match v with
  | Arr l => mapM f l
  | _ => Throw TypeError
  end.


Definition joinExpText (exp : value) : completion jstring :=
  texts ← Array_map (or_else exp (Arr []))
    (λ e,
       role ← Get e (lit "role") ≫= ToString;
       company ← Get e (lit "company") ≫= ToString;
       duration ← Get e (lit "duration") ≫= ToString;
       description ← Get e (lit "description");
       bullets ← Array_join (or_else description (Arr [])) SP;
       Normal (role ++ SP ++ company ++ SP ++ duration ++ SP ++ bullets));
  Normal (join SP texts).


(** A typed experience entry as the object it is at run time. *)
Definition of_experience (e : Exp.t) : value :=
  Obj [(lit "role", Str (Exp.role e));
       (lit "company", Str (Exp.company e));
       (lit "duration", Str (Exp.duration e));
       (lit "description", Arr (Str <$> Exp.description e))].

(** [JSON.parse(JSON.stringify(v))].  [stringify] writes [null] for an
    [undefined] array element and omits a property whose value is
    [undefined]; no value here has a callable [toJSON].  On [undefined]
    itself [stringify] returns [undefined], which [parse] rejects. *)
Fixpoint JSON_clone (v : value) : completion value :=
  match v with
  | Undefined => Throw SyntaxError
  | Null | Bool _ | Str _ => Normal v
  | Arr l =>
      elements ←
        (fix clone_all (l : list value) : completion (list value) :=
           match l with
           | [] => Normal []
           | x :: l' =>
               y ← match x with
                   | Undefined => Normal Null
                   | _ => JSON_clone x
                   end;
               ys ← clone_all l';
               Normal (y :: ys)
           end) l;
      Normal (Arr elements)
  | Obj fields =>
      fields' ←
        (fix clone_all (fs : list (jstring * value))
           : completion (list (jstring * value)) :=
           match fs with
           | [] => Normal []
           | (k, x) :: fs' =>
               match x with
               | Undefined => clone_all fs'
               | _ => y ← JSON_clone x; ys ← clone_all fs'; Normal ((k, y) :: ys)
               end
           end) fields;
      Normal (Obj fields')
  end.

(** [preprocessResume] from its first statement to the one that computes
    [expLen].  The three lengths taken before it read [length] on a value
    that is never [null] or [undefined], which cannot raise, and are not
    used until the sum is formed; an exception raised here leaves
    [preprocessResume]. *)
Definition preprocessResume_expLen (input : value) : completion nat :=
  data ← JSON_clone (or_else input (Obj []));
  experience ← Get data (lit "experience");
  text ← joinExpText experience;
  Normal (length text).


End Js.

(** ** The statements of the specification that the code is compared with *)

(** The length of [n] strings joined with one code unit between
    neighbours, from their lengths. *)
Definition joined_length (lens : list nat) : nat :=
  sum_list lens + (length lens - 1).

(** The density measure written as a sum of field lengths.  [w] is the
    number of code units between two fields of one experience, education
    or volunteer entry, [wc] the number between the name and the year of
    a certification; list elements are one space apart. *)
Definition sum_of_lengths (w wc : nat) (d : ResumeData) : nat :=
  length (name d) + length (default [] (title d)) + length (summary d)
  + joined_length
      ((λ e, length (Exp.role e) + w + length (Exp.company e) + w
             + length (Exp.duration e) + w
             + joined_length (length <$> Exp.description e))
       <$> experience d)
  + joined_length
      ((λ e, length (Edu.degree e) + w + length (Edu.school e) + w
             + length (Edu.year e))
       <$> education d)
  + joined_length (length <$> or_empty (skills d))
  + joined_length (length <$> or_empty (softSkills d))
  + joined_length (length <$> or_empty (achivements d))
  + joined_length (length <$> or_empty (languages d))
  + joined_length
      ((λ c, length (Cert.name c) + wc + length (default [] (Cert.year c)))
       <$> or_empty (certifications d))
  + joined_length
      ((λ v, length (Vol.role v) + w + length (Vol.org v) + w
             + joined_length (length <$> Vol.description v))
       <$> or_empty (volunteer d)).

(** The density measure as the specification words it: one reading of the
    [+] between the fields of an entry, the same for every kind of entry
    ([w = 0]: the fields are juxtaposed; [w = 1]: they are one space
    apart). *)
Definition spec_totalChars (w : nat) (d : ResumeData) : nat :=
  sum_of_lengths w w d.

(** Rounding as the specification means it, without reference to the
    code: [z] is the integer nearest to [x], a tie going to the larger
    one. *)
Definition rounds_to (x : R) (z : Z) : Prop := (IZR z - / 2 <= x < IZR z + / 2)%R.

(** [size] is [x] rounded, then clamped to the window from [lo] to [hi];
    it is a whole number. *)
Definition rounded_then_clamped (x lo hi size : R) : Prop :=
  ∃ z, rounds_to x z ∧ size = Rmax lo (Rmin hi (IZR z)) ∧ ∃ k, size = IZR k.

(** The bullet rule as the specification words it: a bullet over the
    budget keeps its first [budget - 1] code units, loses trailing white
    space and gains an ellipsis; any other bullet is left as it is. *)
Definition spec_bullet (truncateCharPerLine : nat) (b : jstring) : jstring :=
  if truncateCharPerLine <? length b
  then trimEnd (take (truncateCharPerLine - 1) b) ++ ELLIPSIS
  else b.

(** The bullet rule as worded, for every entry of [d] that remains. *)
Definition spec_bullets_rule (d : ResumeData) : Prop :=
  ∀ l i e,
    _layout (preprocessResume d) = Some l →
    take (maxExperienceItems l) (experience d) !! i = Some e →
    ∃ e', experience (preprocessResume d) !! i = Some e'
          ∧ Exp.description e'
            = spec_bullet (truncateCharPerLine l)
              <$> take (maxBulletsPerExp l) (Exp.description e).

(** The cap on achievements chosen by a pass. *)
Definition achCap (l : LayoutHints) : nat := if compactMode l then 6 else 12.

(** The layout object a pass computes for its input. *)
Definition layoutOf (d : ResumeData) : LayoutHints :=
  layoutHints (nameLen d) (totalChars d).

(** The second-pass law as the specification words it, for the input [d]
    of the first pass: the achievements stay within the first pass's cap,
    no bullet that survives gets shorter, and the density does not grow. *)
Definition spec_second_pass (d : ResumeData) : Prop :=
  let p1 := preprocessResume d in
  let p2 := preprocessResume p1 in
  length (or_empty (achivements p2)) ≤ achCap (layoutOf d)
  ∧ (∀ i j e1 e2 b1 b2,
       experience p1 !! i = Some e1 → experience p2 !! i = Some e2 →
       Exp.description e1 !! j = Some b1 → Exp.description e2 !! j = Some b2 →
       length b1 ≤ length b2)
  ∧ totalChars p1 ≤ totalChars d.

(** No white space at either end. *)
Definition trimmed (s : jstring) : Prop := trim s = s.

(** The first code unit of a string, when there is one, is not white. *)
Definition clean_head (s : jstring) : Prop :=
  match s with
  | [] => True
  | c :: _ => is_white c = false
  end.

(** The strings that the overflowing entries of [d] are condensed into,
    experience first. *)
Definition overflowEntries (d : ResumeData) : list jstring :=
  let l := layoutOf d in
  (condenseExperience (maxBulletsPerExp l)
   <$> drop (maxExperienceItems l) (experience d))
  ++ (condenseEducation <$> drop (maxEducationItems l) (education d)).




(** The two condensed strings as the specification words them. *)
Definition spec_condensed_experience (cap : nat) (e : Exp.t) : jstring :=
  Exp.role e ++ DASH ++ Exp.company e
  ++ concat ((λ b, BULLET ++ b) <$> take cap (Exp.description e)).

Definition spec_condensed_education (ed : Edu.t) : jstring :=
  Edu.degree ed ++ DASH ++ Edu.school ed ++ SP ++ Edu.year ed.

(** The overflow rule as the specification words it: the achievements of
    the result are the existing ones followed by the worded strings, each
    trimmed, without duplicates, cut to the cap. *)
Definition spec_overflow_rule (d : ResumeData) : Prop :=
  ∀ l, _layout (preprocessResume d) = Some l →
    maxExperienceItems l < length (experience d) →
    achivements (preprocessResume d)
    = Some (take (if compactMode l then 6 else 12)
              (Array_from_Set
                 (trim <$> (or_empty (achivements d)
                            ++ (spec_condensed_experience (maxBulletsPerExp l)
                                <$> drop (maxExperienceItems l) (experience d))
                            ++ (spec_condensed_education
                                <$> drop (maxEducationItems l) (education d)))))).

(** ** Sample resumes *)

Definition no_contact : Contact := mkContact None None None None.

Definition blank : ResumeData :=
  mkResume [] None None no_contact [] [] [] None None None None None None None None.

Definition with_name (n : jstring) (d : ResumeData) : ResumeData :=
  mkResume n (title d) (photoUrl d) (contact d) (summary d) (experience d)
    (education d) (certifications d) (achivements d) (volunteer d) (skills d)
    (softSkills d) (languages d) (interests d) (_layout d).

Definition short_job : Exp.t :=
  Exp.mk (lit "Dev") (lit "Acme") (lit "2020") [lit "Built it"; lit "Ran it"].

(** Seven short jobs: one more than the normal cap. *)
Definition seven_jobs : ResumeData := set_experience (replicate 7 short_job) blank.

(** Six short jobs and a seventh whose first bullet is empty. *)
Definition empty_first_bullet : ResumeData :=
  set_experience
    (replicate 6 short_job
     ++ [Exp.mk (lit "Dev") (lit "Acme") (lit "2020") [[]; lit "Ran it"]])
    blank.


(** One job whose only bullet starts with a space. *)
Definition padded_bullet : ResumeData :=
  set_experience [Exp.mk (lit "Dev") (lit "Acme") (lit "2020") [lit " a"]] blank.

(** One job with three one-letter fields and no bullet. *)
Definition one_job : ResumeData :=
  set_experience [Exp.mk (lit "a") (lit "b") (lit "c") []] blank.

(** One certification with a one-letter name and a one-letter year. *)
Definition one_certificate : ResumeData :=
  set_certifications [Cert.mk (lit "a") (Some (lit "b"))] blank.

(** Density exactly 2200 on the first pass: a name of 1920 code units, a
    job with one bullet of 221, and six jobs of which the last overflows. *)
Definition on_the_threshold : ResumeData :=
  with_name (replicate 1920 120%N)
    (set_experience
       (Exp.mk (lit "a") (lit "b") [] [replicate 221 120%N]
        :: replicate 6 (Exp.mk (lit "a") (lit "b") [] [lit "c"; lit "d"]))
       blank).

(** One job whose only bullet is 100 spaces followed by 200 letters. *)
Definition indented_bullet : ResumeData :=
  set_experience
    [Exp.mk (lit "Dev") (lit "Acme") (lit "2020")
       [replicate 100 32%N ++ replicate 200 120%N]] blank.

(** A summary of 4900 letters and nothing else: the density is 4900 and
    the scale is the square root of 3600/4900, which is 6/7. *)
Definition long_summary : ResumeData :=
  mkResume [] None None no_contact (replicate 4900 120%N) [] [] None None None
    None None None None None.

(** One job with a bullet of 300 letters. *)
Definition long_bullet : ResumeData :=
  set_experience [Exp.mk (lit "Dev") (lit "Acme") (lit "2020") [replicate 300 120%N]] blank.

(** ** Statements about the code that the claims leave out *)

(** What a capped, deduplicated list of strings satisfies with respect to
    the list it was made from. *)
Definition normalised_from (cap : nat) (input : option (list (list N)))
    (out : list (list N)) : Prop :=
  length out ≤ cap
  ∧ NoDup out
  ∧ Forall (λ s, s ≠ [] ∧ trimmed s ∧ ∃ x, x ∈ or_empty input ∧ s = trim x) out
  ∧ out `prefix_of` uniqStrings input.

(** ** The templates that render the result

    [creative.tsx] and [modern.tsx] read the hints of [_layout] with
    defaults of their own, slice the lists once more and cut the lines
    once more. *)
Module Template.

(** [s.slice(0, e)] for an integer [e]; a negative [e] counts from the
    end of the string. *)
Definition String_slice0 (s : jstring) (e : Z) : jstring :=
  if (e <? 0)%Z then take (length s - Z.to_nat (- e)) s else take (Z.to_nat e) s.

(** [(s, n) => s && s.length > n ? s.slice(0, n - 1).trim() + '…' : s] *)
Definition truncate (s : jstring) (n : nat) : jstring :=
  if decide (truthy s) then
    if n <? length s then trim (String_slice0 s (Z.of_nat n - 1)) ++ ELLIPSIS else s
  else s.

(** [(data._layout ?? {}).field ?? d] *)
Definition hint {A} (data : ProcessedResume) (field : LayoutHints → A) (d : A) : A :=
  match _layout data with
  | Some layout => field layout
  | None => d
  end.

Definition maxBullets (data : ProcessedResume) : nat := hint data maxBulletsPerExp 4.
Definition maxExperienceItems (data : ProcessedResume) : nat :=
  hint data maxExperienceItems 6.
Definition maxEducationItems (data : ProcessedResume) : nat :=
  hint data maxEducationItems 6.
Definition truncateChars (data : ProcessedResume) : nat :=
  hint data truncateCharPerLine 220.

Record Slice (A : Type) := mkSlice { items : list A; more : nat; total : nat }.
Arguments mkSlice {A} _ _ _.
Arguments items {A} _.
Arguments more {A} _.
Arguments total {A} _.

(** [sliceWithCount] of [creative.tsx]; [None] is an [arr] that is not an
    array. *)
Definition sliceWithCount {A} (arr : option (list A)) (limit : nat) : Slice A :=
  let a := match arr with Some a => a | None => [] end in
  mkSlice (take limit a)
          (Z.to_nat (Z.max 0 (Z.of_nat (length a) - Z.of_nat limit)))
          (length a).

Definition expSlice (data : ProcessedResume) : Slice Exp.t :=
  sliceWithCount (Some (experience data)) (maxExperienceItems data).
Definition eduSlice (data : ProcessedResume) : Slice Edu.t :=
  sliceWithCount (Some (education data)) (maxEducationItems data).

(** The list items of one experience entry:
    [exp.description.slice(0, maxBullets).map(d => truncate(d, ...))]. *)
Definition bullets (data : ProcessedResume) (exp : Exp.t) : list jstring :=
  (λ d, truncate d (truncateChars data)) <$> take (maxBullets data) (Exp.description exp).

(** The count of the closing item '+N more' of [creative.tsx], when it
    is rendered. *)
Definition moreBullets (data : ProcessedResume) (exp : Exp.t) : option nat :=
  if maxBullets data <? length (Exp.description exp)
  then Some (length (Exp.description exp) - maxBullets data)
  else None.

(** The paragraph under the heading Summary. *)
Definition shownSummary (data : ProcessedResume) : jstring :=
  truncate (summary data) (truncateChars data).

(** The experience section of [minimal.tsx]: every entry, every bullet,
    each cut at 240. *)
Definition minimalBullets (exp : Exp.t) : list jstring :=
  (λ d, truncate d 240) <$> Exp.description exp.

(** The scale that [fitToPage] of [modern.tsx] sets, from the two widths
    it measures: [containerW] is [container.clientWidth] and [contentW] is
    [content.scrollWidth]. *)
Definition MIN_SCALE : R := 0.65.
Definition INNER_WIDTH : R := 760.

Definition fitToPage (containerW contentW : R) : R :=
  let s := Rmin 1 ((containerW - 28) / Rmax contentW INNER_WIDTH) in
  if Rlt_dec s MIN_SCALE then MIN_SCALE else s.
End Template.

(** ** The normaliser of [pages/api/generateResume.ts]

    The handler parses the text the model returned and builds the
    [ResumeData] it answers with from whatever value came out, field by
    field.  [parsed] is a value of [Js.value]; numbers are outside that
    fragment. *)
Module Api.
Import Js.

(** [(v ?? '').toString()] *)
Definition toString_or_empty (v : value) : completion jstring :=
  match v with
  | Undefined | Null => Normal []
  | _ => ToString v
  end.

(** [(v.key ?? '').toString()] *)
Definition text (v : value) (key : string) : completion jstring :=
  Get v (lit key) ≫= toString_or_empty.

(** [(v?.key ?? '').toString()] *)
Definition text_opt (v : value) (key : string) : completion jstring :=
  match v with
  | Undefined | Null => Normal []
  | _ => text v key
  end.

(** [Array.isArray(v) ? v.map(f) : []] *)
Definition map_if_array {B} (v : value) (f : value → completion B)
    : completion (list B) :=
  match v with
  | Arr l => mapM f l
  | _ => Normal []
  end.

(** [Array.isArray(v) ? v : []] *)
Definition elements (v : value) : list value :=
  match v with
  | Arr l => l
  | _ => []
  end.

(** [Array.isArray(v.key) ? v.key.map(String) : []] *)
Definition strings (v : value) (key : string) : completion (list jstring) :=
  a ← Get v (lit key); map_if_array a ToString.

Definition normalizeExperience (e : value) : completion Exp.t :=
  role ← text e "role";
  company ← text e "company";
  duration ← text e "duration";
  description ← strings e "description";
  Normal (Exp.mk role company duration description).

Definition normalizeEducation (e : value) : completion Edu.t :=
  degree ← text e "degree";
  school ← text e "school";
  year ← text e "year";
  Normal (Edu.mk degree school year).

Definition normalizeCertification (c : value) : completion Cert.t :=
  name ← text c "name";
  year ← text c "year";
  Normal (Cert.mk name (Some year)).

Definition normalizeVolunteer (v : value) : completion Vol.t :=
  role ← text v "role";
  org ← text v "org";
  duration ← text v "duration";
  description ← strings v "description";
  Normal (Vol.mk role org (Some duration) description).

(** The object literal [normalized], its properties evaluated in the order
    they are written.  [profileImage] is the field of the request body. *)
Definition normalized (profileImage : option jstring) (parsed : value)
    : completion ResumeData :=
  name ← text parsed "name";
  title ← text parsed "title";
  photoUrl ← match profileImage with
             | Some (c :: img) => Normal (c :: img)
             | _ => text parsed "photoUrl"
             end;
  phone ← (c ← Get parsed (lit "contact"); text_opt c "phone");
  email ← (c ← Get parsed (lit "contact"); text_opt c "email");
  address ← (c ← Get parsed (lit "contact"); text_opt c "address");
  linkedin ← (c ← Get parsed (lit "contact"); text_opt c "linkedin");
  summary ← text parsed "summary";
  experience ← (a ← Get parsed (lit "experience"); map_if_array a normalizeExperience);
  education ← (a ← Get parsed (lit "education"); map_if_array a normalizeEducation);
  certifications ←
    (a ← Get parsed (lit "certifications"); map_if_array a normalizeCertification);
  achivements ← strings parsed "achivements";
  volunteer ← (a ← Get parsed (lit "volunteer"); map_if_array a normalizeVolunteer);
  skills ← strings parsed "skills";
  softSkills ← strings parsed "softSkills";
  languages ← strings parsed "languages";
  interests ← strings parsed "interests";
  Normal (mkResume name (Some title) (Some photoUrl)
            (mkContact (Some phone) (Some email) (Some address) (Some linkedin))
            summary experience education (Some certifications)
            (Some achivements) (Some volunteer) (Some skills)
            (Some softSkills) (Some languages) (Some interests) None).

Inductive response :=
| Status200 (data : ResumeData)
| Status500.

(** The end of the handler, from [if (!parsed)] on: a falsy [parsed] and
    an exception raised while [normalized] is built are both answered with
    status 500. *)
Definition respond (profileImage : option jstring) (parsed : value) : response :=
  if ToBoolean parsed then
    match normalized profileImage parsed with
    | Normal data => Status200 data
    | Throw _ => Status500
    end
  else Status500.

(** The properties of an object written with some of them left out. *)
Definition of_optional (fields : list (jstring * option value))
    : list (jstring * value) :=
  omap (λ kv, pair kv.1 <$> kv.2) fields.

Definition of_education (e : Edu.t) : value :=
  Obj [(lit "degree", Str (Edu.degree e));
       (lit "school", Str (Edu.school e));
       (lit "year", Str (Edu.year e))].

Definition of_certification (c : Cert.t) : value :=
  Obj (of_optional [(lit "name", Some (Str (Cert.name c)));
                    (lit "year", Str <$> Cert.year c)]).

Definition of_volunteer (v : Vol.t) : value :=
  Obj (of_optional [(lit "role", Some (Str (Vol.role v)));
                    (lit "org", Some (Str (Vol.org v)));
                    (lit "duration", Str <$> Vol.duration v);
                    (lit "description", Some (Arr (Str <$> Vol.description v)))]).

Definition of_contact (c : Contact) : value :=
  Obj (of_optional [(lit "phone", Str <$> phone c);
                    (lit "email", Str <$> email c);
                    (lit "address", Str <$> address c);
                    (lit "linkedin", Str <$> linkedin c)]).

Definition of_strings (l : list jstring) : value := Arr (Str <$> l).

(** A typed resume as the object it is at run time; an optional field
    that is absent is a property that is not there. *)
Definition of_resume (d : ResumeData) : value :=
  Obj (of_optional
         [(lit "name", Some (Str (name d)));
          (lit "title", Str <$> title d);
          (lit "photoUrl", Str <$> photoUrl d);
          (lit "contact", Some (of_contact (contact d)));
          (lit "summary", Some (Str (summary d)));
          (lit "experience", Some (Arr (of_experience <$> experience d)));
          (lit "education", Some (Arr (of_education <$> education d)));
          (lit "certifications",
            (λ l, Arr (of_certification <$> l)) <$> certifications d);
          (lit "achivements", of_strings <$> achivements d);
          (lit "volunteer", (λ l, Arr (of_volunteer <$> l)) <$> volunteer d);
          (lit "skills", of_strings <$> skills d);
          (lit "softSkills", of_strings <$> softSkills d);
          (lit "languages", of_strings <$> languages d);
          (lit "interests", of_strings <$> interests d)]).

(** Reading a key of such an object. *)
Fixpoint own_optional (key : jstring) (fields : list (jstring * option value))
    : option value :=
  match fields with
  | [] => None
  | (k, o) :: fields' =>
      if bool_decide (k = key)
      then match o with
           | Some v => Some v
           | None => own_optional key fields'
           end
      else own_optional key fields'
  end.
End Api.

(** A value that a JSON text denotes: [undefined] occurs nowhere in it. *)
Fixpoint is_json (v : Js.value) : bool :=
  match v with
  | Js.Undefined => false
  | Js.Null | Js.Bool _ | Js.Str _ => true
  | Js.Arr l => forallb is_json l
  | Js.Obj fields => forallb (λ kv, is_json kv.2) fields
  end.

(** * Properties *)

(** ** Strings *)

Lemma length_join_SP (l : list jstring) :
  length (join SP l) = joined_length (length <$> l).
Proof.
  unfold joined_length.
  induction l as [|x l IH]; [reflexivity|].
  destruct l as [|y l].
  - cbn. lia.
  - change (join SP (x :: y :: l)) with (x ++ SP ++ join SP (y :: l)).
    rewrite !length_app, IH. cbn. lia.
Qed.

Lemma trimStart_suffix s : ∃ p, s = p ++ trimStart s.
Proof.
  induction s as [|c s [p IH]]; [by exists []|].
  cbn. destruct (is_white c).
  - exists (c :: p). cbn. by rewrite <- IH.
  - by exists [].
Qed.

Lemma length_trimStart s : length (trimStart s) ≤ length s.
Proof.
  destruct (trimStart_suffix s) as [p Hp].
  rewrite Hp at 2. rewrite length_app. lia.
Qed.

Lemma clean_head_trimStart s : clean_head (trimStart s).
Proof.
  induction s as [|c s IH]; [done|].
  cbn. destruct (is_white c) eqn:Hc; [done|]. exact Hc.
Qed.

Lemma trimStart_clean s : clean_head s → trimStart s = s.
Proof. destruct s as [|c s]; [done|]. cbn. by intros ->. Qed.

Lemma trimStart_idem s : trimStart (trimStart s) = trimStart s.
Proof. apply trimStart_clean, clean_head_trimStart. Qed.

Lemma trimEnd_prefix s : ∃ q, s = trimEnd s ++ q.
Proof.
  unfold trimEnd. destruct (trimStart_suffix (rev s)) as [p Hp].
  exists (rev p). rewrite <- rev_app_distr, <- Hp. by rewrite rev_involutive.
Qed.

Lemma length_trimEnd s : length (trimEnd s) ≤ length s.
Proof.
  unfold trimEnd. rewrite length_rev.
  etrans; [apply length_trimStart|]. by rewrite length_rev.
Qed.

Lemma trimEnd_idem s : trimEnd (trimEnd s) = trimEnd s.
Proof. unfold trimEnd. by rewrite rev_involutive, trimStart_idem. Qed.

Lemma trimEnd_snoc s c : is_white c = false → trimEnd (s ++ [c]) = s ++ [c].
Proof.
  intros Hc. unfold trimEnd. rewrite rev_app_distr. cbn. rewrite Hc.
  change (c :: rev s) with ([c] ++ rev s).
  by rewrite rev_app_distr, rev_involutive.
Qed.

Lemma clean_head_prefix s q : clean_head (s ++ q) → clean_head s.
Proof. by destruct s. Qed.

Lemma clean_head_trimEnd s : clean_head s → clean_head (trimEnd s).
Proof.
  intros H. destruct (trimEnd_prefix s) as [q Hq].
  rewrite Hq in H. by apply clean_head_prefix in H.
Qed.

Lemma clean_head_trim s : clean_head (trim s).
Proof. apply clean_head_trimEnd, clean_head_trimStart. Qed.

Lemma clean_head_take k s : clean_head s → clean_head (take k s).
Proof. intros H. rewrite <- (take_drop k s) in H. by apply clean_head_prefix in H. Qed.

Lemma clean_head_snoc s c : clean_head s → is_white c = false → clean_head (s ++ [c]).
Proof. by destruct s. Qed.

Lemma length_trim s : length (trim s) ≤ length s.
Proof.
  unfold trim. etrans; [apply length_trimEnd|]. apply length_trimStart.
Qed.

Lemma trim_idem s : trim (trim s) = trim s.
Proof.
  unfold trim at 1. rewrite (trimStart_clean (trim s)) by apply clean_head_trim.
  unfold trim. apply trimEnd_idem.
Qed.

Lemma trim_clean s : clean_head s → trim s = trimEnd s.
Proof. intros H. unfold trim. by rewrite trimStart_clean. Qed.

Lemma trim_snoc s c : clean_head s → is_white c = false → trim (s ++ [c]) = s ++ [c].
Proof.
  intros Hs Hc. rewrite trim_clean by by apply clean_head_snoc.
  by apply trimEnd_snoc.
Qed.

Lemma trimmed_clean_head s : trimmed s → clean_head s.
Proof. intros <-. apply clean_head_trim. Qed.

Lemma trimmed_trim s : trimmed (trim s).
Proof. apply trim_idem. Qed.

(** ** Insertion-ordered sets *)

Lemma Set_add_all_NoDup seen l : NoDup seen → NoDup (Set_add_all seen l).
Proof.
  revert seen. induction l as [|x l IH]; intros seen Hs; [done|].
  cbn. apply IH. case_bool_decide as Hx; [done|].
  apply NoDup_app. split_and!; [done| |apply NoDup_singleton].
  intros y Hy ->%list_elem_of_singleton. done.
Qed.

Lemma Set_add_all_length seen l :
  length (Set_add_all seen l) ≤ length seen + length l.
Proof.
  revert seen. induction l as [|x l IH]; intros seen; cbn; [lia|].
  etrans; [apply IH|]. case_bool_decide; rewrite ?length_app; cbn; lia.
Qed.

Lemma Array_from_Set_NoDup l : NoDup (Array_from_Set l).
Proof. apply Set_add_all_NoDup, NoDup_nil_2. Qed.

Lemma Array_from_Set_length l : length (Array_from_Set l) ≤ length l.
Proof. apply (Set_add_all_length [] l). Qed.

Lemma elem_of_Set_add_all x seen l :
  x ∈ Set_add_all seen l ↔ x ∈ seen ∨ x ∈ l.
Proof.
  revert seen. induction l as [|y l IH]; intros seen; cbn.
  - rewrite elem_of_nil. tauto.
  - rewrite IH, elem_of_cons. case_bool_decide as Hy.
    + split; [tauto|]. intros [?|[->|?]]; tauto.
    + rewrite elem_of_app, list_elem_of_singleton. tauto.
Qed.

Lemma elem_of_trimStart c s : c ∈ s → is_white c = false → c ∈ trimStart s.
Proof.
  intros Hin Hc. induction s as [|x s IH]; [done|].
  cbn. destruct (is_white x) eqn:Hx; [|done].
  apply elem_of_cons in Hin as [->|Hin]; [congruence|by apply IH].
Qed.

Lemma elem_of_trim c s : c ∈ s → is_white c = false → c ∈ trim s.
Proof.
  intros Hin Hc. unfold trim, trimEnd.
  apply list_elem_of_In, in_rev. rewrite rev_involutive.
  apply list_elem_of_In, elem_of_trimStart; [|done].
  apply list_elem_of_In, in_rev. rewrite rev_involutive.
  by apply list_elem_of_In, elem_of_trimStart.
Qed.

Lemma join_cons_truthy sep x l : truthy x → truthy (join sep (x :: l)).
Proof.
  unfold truthy. intros Hx. destruct l; cbn; [done|].
  by destruct x.
Qed.

Lemma condenseExperience_truthy n e : truthy (condenseExperience n e).
Proof.
  unfold condenseExperience.
  assert (truthy (trim (Exp.role e ++ DASH ++ Exp.company e))) as Ht.
  { assert (0x2014%N ∈ trim (Exp.role e ++ DASH ++ Exp.company e)) as Hin.
    { apply elem_of_trim; [|done]. unfold DASH. set_solver. }
    unfold truthy. intros Heq. rewrite Heq in Hin. by apply elem_of_nil in Hin. }
  rewrite filter_cons_True by done. by apply join_cons_truthy.
Qed.

Lemma condenseEducation_truthy ed : truthy (condenseEducation ed).
Proof.
  unfold condenseEducation, truthy. intros Heq.
  assert (0x2014%N ∈ @nil N) as Hin; [|by apply elem_of_nil in Hin].
  rewrite <- Heq. apply elem_of_trim; [|done]. unfold DASH. set_solver.
Qed.

Lemma foldl_push_truthy {A} (f : A → jstring) acc l :
  (∀ x, truthy (f x)) →
  foldl (λ acc x, push_truthy acc (f x)) acc l = acc ++ (f <$> l).
Proof.
  intros Hf. revert acc. induction l as [|x l IH]; intros acc; cbn.
  - by rewrite app_nil_r.
  - rewrite IH. unfold push_truthy. rewrite decide_True by done.
    by rewrite <- app_assoc.
Qed.

(** ** The fields of the result *)

Ltac fields :=
  cbn [name title photoUrl contact summary experience education certifications
       achivements volunteer skills softSkills languages interests _layout
       set_experience set_education set_certifications set_achivements
       set_skills set_softSkills set_languages set_layout].

Lemma layout_preprocessResume d : _layout (preprocessResume d) = Some (layoutOf d).
Proof.
  unfold preprocessResume, layoutOf, JSON_clone. fields.
  destruct (_ <? length (experience d)); fields;
    by destruct (_ <? length (education d)).
Qed.

Lemma experience_preprocessResume d :
  experience (preprocessResume d)
  = trimExperience (maxBulletsPerExp (layoutOf d)) (truncateCharPerLine (layoutOf d))
    <$> take (maxExperienceItems (layoutOf d)) (experience d).
Proof.
  unfold preprocessResume, layoutOf, JSON_clone. fields.
  destruct (_ <? length (experience d)) eqn:He; fields.
  - by destruct (_ <? length (education d)).
  - apply Nat.ltb_ge in He. rewrite (take_ge _ _ He).
    by destruct (_ <? length (education d)).
Qed.

Lemma education_preprocessResume d :
  education (preprocessResume d) = take (maxEducationItems (layoutOf d)) (education d).
Proof.
  unfold preprocessResume, JSON_clone, layoutOf. fields.
  destruct (_ <? length (experience d)) eqn:He; fields;
    (destruct (_ <? length (education d)) eqn:Hd; fields; [done|]);
    apply Nat.ltb_ge in Hd; by rewrite (take_ge _ _ Hd).
Qed.

Lemma achivements_preprocessResume d :
  achivements (preprocessResume d)
  = Some (take (achCap (layoutOf d))
            (filter truthy
               (Array_from_Set ((trim <$> or_empty (achivements d))
                                ++ overflowEntries d)))).
Proof.
  assert (∀ a : option (list jstring),
            match a with Some a => trim <$> a | None => [] end
            = trim <$> or_empty a) as Hex by by intros [].
  unfold preprocessResume, JSON_clone, overflowEntries, layoutOf, achCap.
  fields.
  destruct (_ <? length (experience d)) eqn:He; fields;
    (destruct (_ <? length (education d)) eqn:Hd; fields);
    rewrite ?Hex;
    rewrite ?(foldl_push_truthy (condenseExperience _)) by apply condenseExperience_truthy;
    rewrite ?(foldl_push_truthy condenseEducation) by apply condenseEducation_truthy;
    try apply Nat.ltb_ge in He; try apply Nat.ltb_ge in Hd;
    rewrite ?(drop_ge _ _ He), ?(drop_ge _ _ Hd);
    rewrite ?fmap_nil, ?app_nil_r, ?app_nil_l; done.
Qed.

(** ** Layout hints *)

Lemma clamp_bounds v a b : (a <= b)%R → (a <= clamp v a b <= b)%R.
Proof.
  intros Hab. unfold clamp. split; [apply Rmax_l|].
  apply Rmax_lub; [exact Hab|apply Rmin_l].
Qed.

Lemma globalScale_bounds t : (0.7 <= globalScale t <= 1)%R.
Proof. unfold globalScale. apply clamp_bounds. lra. Qed.

Lemma compactMode_layoutOf d : compactMode (layoutOf d) = (MEDIUM_CHARS <? totalChars d).
Proof. reflexivity. Qed.

Lemma caps_layoutOf d :
  maxExperienceItems (layoutOf d) = (if compactMode (layoutOf d) then 3 else 6)
  ∧ maxBulletsPerExp (layoutOf d) = (if compactMode (layoutOf d) then 2 else 4)
  ∧ maxEducationItems (layoutOf d) = (if compactMode (layoutOf d) then 2 else 6)
  ∧ truncateCharPerLine (layoutOf d) = (if compactMode (layoutOf d) then 120 else 220).
Proof. done. Qed.

(** C1: the layout attached to the result has [compactMode] true exactly
    when the density [totalChars] of the input is strictly above 2200; at
    a density of exactly 2200 it is false. *)
Theorem compactMode_iff_above_2200 (d : ResumeData) :
  ∃ l, _layout (preprocessResume d) = Some l
       ∧ (compactMode l = true ↔ 2200 < totalChars d)
       ∧ (totalChars d = 2200 → compactMode l = false).
Proof.
  exists (layoutOf d). split; [apply layout_preprocessResume|].
  rewrite compactMode_layoutOf. unfold MEDIUM_CHARS. split.
  - apply Nat.ltb_lt.
  - intros ->. reflexivity.
Qed.

Lemma rounds_to_Math_round x : rounds_to x (Zfloor (x + / 2)).
Proof.
  unfold rounds_to. pose proof (Zfloor_bound (x + / 2)) as H. lra.
Qed.

Lemma rounds_to_unique x z z' : rounds_to x z → rounds_to x z' → z = z'.
Proof.
  unfold rounds_to. intros H H'.
  assert (IZR z < IZR (z' + 1))%R as H1 by (rewrite plus_IZR; lra).
  assert (IZR z' < IZR (z + 1))%R as H2 by (rewrite plus_IZR; lra).
  apply lt_IZR in H1, H2. lia.
Qed.

Lemma rounded_then_clamped_intro x lo hi :
  rounded_then_clamped x (IZR lo) (IZR hi) (clamp (Math_round x) (IZR lo) (IZR hi)).
Proof.
  exists (Zfloor (x + / 2)). split; [apply rounds_to_Math_round|].
  split; [reflexivity|].
  unfold clamp, Math_round, Rmax, Rmin.
  repeat destruct (Rle_dec _ _); eauto.
Qed.

(** C2: every section font size of the attached layout is its base value
    (14, 12, 12, 11, 10) times [globalScale] (the two sidebar sizes also
    times 0.88 when the density is above 4200), rounded to the nearest
    integer and then clamped, so that it is a whole number in its window:
    sectionTitle in [10,18], body in [9,14], sidebarTitle in [9,14],
    sidebarBody in [8,12], duration in [8,12]; [nameFontSize], and with it
    the [name] size, is rounded and clamped in the same way and lies in
    [16,48]; [globalScale] lies in [0.7,1]. *)
Theorem font_sizes_in_their_windows (d : ResumeData) :
  ∃ l, _layout (preprocessResume d) = Some l
    ∧ let g := globalScale (totalChars d) in
      let p := if 4200 <? totalChars d then 0.88%R else 1%R in
      let n := if 24 <? nameLen d then ((INR (nameLen d) - 24) * 0.25)%R else 0%R in
      let f := sectionFontSizes l in
      (0.7 <= g <= 1)%R
      ∧ rounded_then_clamped (14 * g) 10 18 (Fonts.sectionTitle f)
      ∧ rounded_then_clamped (12 * g) 9 14 (Fonts.body f)
      ∧ rounded_then_clamped (12 * g * p) 9 14 (Fonts.sidebarTitle f)
      ∧ rounded_then_clamped (11 * g * p) 8 12 (Fonts.sidebarBody f)
      ∧ rounded_then_clamped (10 * g) 8 12 (Fonts.duration f)
      ∧ rounded_then_clamped (40 * g - n) 16 48 (nameFontSize l)
      ∧ (10 <= Fonts.sectionTitle f <= 18)%R
      ∧ (9 <= Fonts.body f <= 14)%R
      ∧ (9 <= Fonts.sidebarTitle f <= 14)%R
      ∧ (8 <= Fonts.sidebarBody f <= 12)%R
      ∧ (8 <= Fonts.duration f <= 12)%R
      ∧ (16 <= nameFontSize l <= 48)%R
      ∧ (16 <= Fonts.name f <= 48)%R.
Proof.
  exists (layoutOf d). split; [apply layout_preprocessResume|].
  cbv zeta. split; [apply globalScale_bounds|].
  unfold layoutOf, layoutHints.
  cbn [sectionFontSizes nameFontSize Fonts.sectionTitle Fonts.body
       Fonts.sidebarTitle Fonts.sidebarBody Fonts.duration Fonts.name].
  split_and!; try apply rounded_then_clamped_intro; apply clamp_bounds; lra.
Qed.

Lemma Math_round_IZR z : Math_round (IZR z) = IZR z.
Proof.
  unfold Math_round. f_equal. apply Zfloor_eq. lra.
Qed.

Lemma clamp_inside v a b : (a <= v <= b)%R → clamp v a b = v.
Proof.
  intros [Ha Hb]. unfold clamp. rewrite Rmin_right by exact Hb.
  by apply Rmax_right.
Qed.

Lemma clamp_above v a b : (a <= b <= v)%R → clamp v a b = b.
Proof.
  intros [Ha Hb]. unfold clamp. rewrite Rmin_left by exact Hb.
  by apply Rmax_right.
Qed.

Lemma globalScale_4900 : globalScale 4900 = (6 / 7)%R.
Proof.
  unfold globalScale, Math_pow, TARGET_CHARS. rewrite !INR_IZR_INZ.
  change (Z.of_nat 3600) with 3600%Z. change (Z.of_nat 4900) with 4900%Z.
  rewrite Rmax_right by lra.
  replace 0.5%R with (/ 2)%R by lra. rewrite Rpower_sqrt by lra.
  replace (3600 / 4900)%R with ((6 / 7) * (6 / 7))%R by lra.
  rewrite sqrt_square by lra. apply clamp_inside. lra.
Qed.

Lemma rounded_then_clamped_value x lo hi size z :
  rounded_then_clamped x lo hi size → rounds_to x z →
  (lo <= IZR z <= hi)%R → size = IZR z.
Proof.
  intros (z' & Hz' & -> & _) Hz Hw. rewrite (rounds_to_unique x z' z Hz' Hz).
  rewrite Rmin_right by lra. apply Rmax_right. lra.
Qed.

(** A summary of 4900 letters: the scale is 6/7 and the sizes are the
    nearest integers to 12, 10.29, 9.05, 8.30, 8.57 and 34.29. *)
Lemma font_sizes_of_a_long_summary :
  ∃ l, _layout (preprocessResume long_summary) = Some l
    ∧ Fonts.sectionTitle (sectionFontSizes l) = 12%R
    ∧ Fonts.body (sectionFontSizes l) = 10%R
    ∧ Fonts.sidebarTitle (sectionFontSizes l) = 9%R
    ∧ Fonts.sidebarBody (sectionFontSizes l) = 8%R
    ∧ Fonts.duration (sectionFontSizes l) = 9%R
    ∧ nameFontSize l = 34%R.
Proof.
  destruct (font_sizes_in_their_windows long_summary)
    as (l & Hl & _ & H1 & H2 & H3 & H4 & H5 & H6 & _).
  exists l. split; [exact Hl|].
  assert (totalChars long_summary = 4900) as Ht by (vm_compute; reflexivity).
  assert (nameLen long_summary = 0) as Hn by reflexivity.
  rewrite Ht, globalScale_4900 in H1, H2, H3, H4, H5, H6.
  rewrite Hn in H6. change (24 <? 0) with false in H6.
  change (4200 <? 4900) with true in H3, H4. cbv iota in H3, H4, H6.
  split_and!.
  - apply (rounded_then_clamped_value _ _ _ _ 12 H1); unfold rounds_to; lra.
  - apply (rounded_then_clamped_value _ _ _ _ 10 H2); unfold rounds_to; lra.
  - apply (rounded_then_clamped_value _ _ _ _ 9 H3); unfold rounds_to; lra.
  - apply (rounded_then_clamped_value _ _ _ _ 8 H4); unfold rounds_to; lra.
  - apply (rounded_then_clamped_value _ _ _ _ 9 H5); unfold rounds_to; lra.
  - apply (rounded_then_clamped_value _ _ _ _ 34 H6); unfold rounds_to; lra.
Defined.

(** Up to the target density nothing shrinks. *)
Lemma globalScale_low t : t ≤ 3600 → globalScale t = 1%R.
Proof.
  intros Ht. unfold globalScale, Math_pow, TARGET_CHARS.
  apply clamp_above. split; [lra|].
  assert (1 <= INR 3600 / Rmax 1 (INR t))%R as Hraw.
  { assert (0 < Rmax 1 (INR t))%R as Hpos.
    { eapply Rlt_le_trans; [|apply Rmax_l]. lra. }
    apply (Rmult_le_reg_r (Rmax 1 (INR t))); [exact Hpos|].
    unfold Rdiv. rewrite Rmult_assoc, Rinv_l by lra. rewrite Rmult_1_l, Rmult_1_r.
    apply Rmax_lub.
    - change 1%R with (INR 1). apply le_INR. lia.
    - apply le_INR. exact Ht. }
  unfold Rpower. rewrite <- exp_0 at 1.
  destruct (Rle_lt_or_eq_dec _ _ Hraw) as [Hlt|<-].
  - left. apply exp_increasing. apply Rmult_lt_0_compat; [lra|].
    rewrite <- ln_1. apply ln_increasing; lra.
  - rewrite ln_1, Rmult_0_r. right. reflexivity.
Qed.

(** A name of ten code units and nothing else: density 10, normal mode,
    scale 1, and a name size of 40. *)
Lemma scenario_short_name :
  let d := with_name (replicate 10 120%N) blank in
  totalChars d = 10
  ∧ compactMode (layoutOf d) = false
  ∧ globalScale (totalChars d) = 1%R
  ∧ nameFontSize (layoutOf d) = 40%R.
Proof.
  cbv zeta. assert (totalChars (with_name (replicate 10 120%N) blank) = 10) as Ht
    by (vm_compute; reflexivity).
  split_and!; [exact Ht|reflexivity|rewrite Ht; apply globalScale_low; lia|].
  unfold layoutOf. rewrite Ht. unfold layoutHints. cbn [nameFontSize].
  rewrite globalScale_low by lia.
  change (24 <? nameLen _) with false. cbv iota.
  replace (40 * 1 - 0)%R with (IZR 40) by lra.
  rewrite Math_round_IZR. apply clamp_inside. lra.
Qed.

(** C10: the attached [sidebarWidthPx] is 180 whatever the input, and
    [sectionFontSizes.name] equals [nameFontSize]. *)
Theorem sidebar_width_and_name_size (d : ResumeData) :
  ∃ l, _layout (preprocessResume d) = Some l
       ∧ sidebarWidthPx l = 180
       ∧ Fonts.name (sectionFontSizes l) = nameFontSize l.
Proof. exists (layoutOf d). split; [apply layout_preprocessResume|done]. Qed.

(** ** Caps *)

Lemma length_description_trimExperience mb t e :
  length (Exp.description (trimExperience mb t e)) ≤ mb.
Proof.
  unfold trimExperience. cbn [Exp.description].
  rewrite !length_fmap, length_take. lia.
Qed.

(** C3: in the result the experience list is no longer than
    [maxExperienceItems] (6, or 3 in compact mode), the education list no
    longer than [maxEducationItems] (6, or 2), and the description of every
    remaining experience entry no longer than [maxBulletsPerExp] (4, or 2). *)
Theorem lists_within_their_caps (d : ResumeData) :
  ∃ l, _layout (preprocessResume d) = Some l
    ∧ maxExperienceItems l = (if compactMode l then 3 else 6)
    ∧ maxEducationItems l = (if compactMode l then 2 else 6)
    ∧ maxBulletsPerExp l = (if compactMode l then 2 else 4)
    ∧ length (experience (preprocessResume d)) ≤ maxExperienceItems l
    ∧ length (education (preprocessResume d)) ≤ maxEducationItems l
    ∧ Forall (λ e, length (Exp.description e) ≤ maxBulletsPerExp l)
             (experience (preprocessResume d)).
Proof.
  exists (layoutOf d). split; [apply layout_preprocessResume|].
  split_and!; try reflexivity.
  - rewrite experience_preprocessResume, length_fmap, length_take. lia.
  - rewrite education_preprocessResume, length_take. lia.
  - rewrite experience_preprocessResume. apply Forall_fmap, Forall_forall.
    intros e _. apply length_description_trimExperience.
Qed.

(** ** Density *)

Lemma length_joinSimple arr :
  length (joinSimple arr) = joined_length (length <$> or_empty arr).
Proof. apply length_join_SP. Qed.

Lemma expLen_sum d :
  expLen d
  = joined_length
      ((λ e, length (Exp.role e) + 1 + length (Exp.company e) + 1
             + length (Exp.duration e) + 1
             + joined_length (length <$> Exp.description e))
       <$> experience d).
Proof.
  unfold expLen, joinExpText, or_empty. cbn [default].
  rewrite length_join_SP, <- list_fmap_compose. f_equal.
  apply list_fmap_ext. intros _ e _. cbn [compose].
  rewrite !length_app, length_join_SP. cbn [SP length]. lia.
Qed.

Lemma eduLen_sum d :
  eduLen d
  = joined_length
      ((λ e, length (Edu.degree e) + 1 + length (Edu.school e) + 1
             + length (Edu.year e))
       <$> education d).
Proof.
  unfold eduLen, joinEduText, or_empty. cbn [default].
  rewrite length_join_SP, <- list_fmap_compose. f_equal.
  apply list_fmap_ext. intros _ e _. cbn [compose].
  rewrite !length_app. cbn [SP length]. lia.
Qed.

Lemma certLen_sum d :
  certLen d
  = joined_length
      ((λ c, length (Cert.name c) + 0 + length (default [] (Cert.year c)))
       <$> or_empty (certifications d)).
Proof.
  unfold certLen. rewrite length_join_SP, <- list_fmap_compose. f_equal.
  apply list_fmap_ext. intros _ c _. cbn [compose].
  rewrite length_app. lia.
Qed.

Lemma volunteerLen_sum d :
  volunteerLen d
  = joined_length
      ((λ v, length (Vol.role v) + 1 + length (Vol.org v) + 1
             + joined_length (length <$> Vol.description v))
       <$> or_empty (volunteer d)).
Proof.
  unfold volunteerLen. generalize (or_empty (volunteer d)). intros l.
  rewrite length_join_SP, <- list_fmap_compose. f_equal.
  apply list_fmap_ext. intros _ v _. cbn [compose or_empty default].
  rewrite !length_app, length_join_SP. cbn [SP length]. lia.
Qed.

(** C8, as amended: [totalChars] is a natural number, the sum of the
    lengths of name, title, summary and of the joined experience,
    education, skills, softSkills, achievements, languages, certification
    and volunteer texts, where list elements are one space apart, the
    fields of one experience, education or volunteer entry are one space
    apart as well, and the name and year of a certification are
    juxtaposed; an absent optional field counts as an empty one. *)
Theorem totalChars_is_sum_of_lengths (d : ResumeData) :
  totalChars d = sum_of_lengths 1 0 d.
Proof.
  unfold totalChars, sum_of_lengths.
  rewrite expLen_sum, eduLen_sum, certLen_sum, volunteerLen_sum.
  unfold skillsLen, softLen, achLen, langsLen. rewrite !length_joinSimple.
  reflexivity.
Qed.

(** C8 as worded fails under either reading of the [+] between the fields
    of an entry.  Juxtaposed fields: one job with fields "a", "b", "c" and
    no bullet has density 6, not 3.  Fields one space apart: one
    certification "a" of year "b" has density 2, not 3. *)
Lemma totalChars_differs_from_worded_sum :
  totalChars one_job = 6 ∧ spec_totalChars 0 one_job = 3
  ∧ totalChars one_certificate = 2 ∧ spec_totalChars 1 one_certificate = 3.
Proof. by vm_compute. Qed.

(** ** The caller's object is left alone *)

Section heap.
Implicit Types (h : gmap positive ProcessedResume) (l : positive).

Lemma bind_load {A} l (k : ProcessedResume → Heap.M A) h o :
  h !! l = Some o → (Heap.load l ≫= k) h = k o h.
Proof.
  intros Hl. unfold mbind, Heap.M_bind, Heap.load. by rewrite Hl.
Qed.

Lemma bind_assign {A} l upd (k : unit → Heap.M A) h o :
  h !! l = Some o → (Heap.assign l upd ≫= k) h = k tt (<[l := upd o]> h).
Proof.
  intros Hl. unfold mbind, Heap.M_bind, Heap.assign. by rewrite Hl.
Qed.

Lemma bind_alloc {A} o (k : positive → Heap.M A) h :
  (Heap.alloc o ≫= k) h = k (fresh (dom h)) (<[fresh (dom h) := o]> h).
Proof. reflexivity. Qed.

Lemma bind_ret {A B} (a : A) (k : A → Heap.M B) h : (mret a ≫= k) h = k a h.
Proof. reflexivity. Qed.

Lemma bind_bind {A B C} (m : Heap.M A) (f : A → Heap.M B) (g : B → Heap.M C) h :
  ((m ≫= f) ≫= g) h = (m ≫= λ a, f a ≫= g) h.
Proof.
  unfold mbind, Heap.M_bind. by destruct (m h) as [[a h']|].
Qed.

Ltac heap_step :=
  first
    [ rewrite bind_ret
    | rewrite bind_bind
    | erewrite bind_load by apply lookup_insert_eq
    | erewrite bind_assign by apply lookup_insert_eq; rewrite insert_insert_eq ].

(** The reference-level function stores, at a new reference, the value
    that the value-level function computes. *)
Lemma Heap_preprocessResume_run h input r :
  h !! input = Some r →
  Heap.preprocessResume input h
  = Some (fresh (dom h), <[fresh (dom h) := preprocessResume r]> h).
Proof.
  intros Hin. unfold Heap.preprocessResume.
  rewrite (bind_load _ _ _ _ Hin), bind_alloc.
  unfold preprocessResume, JSON_clone. generalize (fresh (dom h)). intros l.
  repeat heap_step. fields.
  destruct (_ <? length (experience r)); repeat heap_step; fields;
    (destruct (_ <? length (education r)); repeat heap_step; fields);
    reflexivity.
Qed.

(** C9: the call leaves the object it was given, and every other object
    that existed before the call, as it was; the result is a new object. *)
Theorem input_is_not_mutated h input r :
  h !! input = Some r →
  ∃ out h',
    Heap.preprocessResume input h = Some (out, h')
    ∧ h' !! input = Some r
    ∧ (∀ l o, h !! l = Some o → h' !! l = Some o)
    ∧ h !! out = None
    ∧ h' !! out = Some (preprocessResume r).
Proof.
  intros Hin. eexists _, _. split; [by apply Heap_preprocessResume_run|].
  assert (h !! fresh (dom h) = None) as Hfresh.
  { apply not_elem_of_dom, is_fresh. }
  assert (∀ l o, h !! l = Some o →
                 <[fresh (dom h) := preprocessResume r]> h !! l = Some o) as Hframe.
  { intros l o Hl. rewrite lookup_insert_ne; [done|]. congruence. }
  split_and!; [by apply Hframe|exact Hframe|exact Hfresh|apply lookup_insert_eq].
Qed.

(** A run on a store that holds one resume. *)
Lemma input_is_not_mutated_witness :
  ∃ out h',
    Heap.preprocessResume 1%positive {[ 1%positive := seven_jobs ]} = Some (out, h')
    ∧ h' !! 1%positive = Some seven_jobs
    ∧ (∀ l o, ({[ 1%positive := seven_jobs ]} : gmap positive ProcessedResume) !! l = Some o
              → h' !! l = Some o)
    ∧ ({[ 1%positive := seven_jobs ]} : gmap positive ProcessedResume) !! out = None
    ∧ h' !! out = Some (preprocessResume seven_jobs).
Proof.
  apply (input_is_not_mutated {[ 1%positive := seven_jobs ]} 1%positive seven_jobs).
  reflexivity.
Defined.
End heap.

(** ** Overflow into the achievements *)

Lemma trimmed_trimEnd s : trimmed s → trimEnd s = s.
Proof.
  intros Ht. pose proof (trimmed_clean_head s Ht) as Hc.
  unfold trimmed in Ht. by rewrite trim_clean in Ht.
Qed.

Lemma trimmed_last s :
  trimmed s → s ≠ [] → ∃ s' c, s = s' ++ [c] ∧ is_white c = false.
Proof.
  intros Ht Hne. apply trimmed_trimEnd in Ht. unfold trimEnd in Ht.
  assert (trimStart (rev s) = rev s) as Hr.
  { rewrite <- Ht at 2. by rewrite rev_involutive. }
  pose proof (clean_head_trimStart (rev s)) as Hc. rewrite Hr in Hc.
  destruct (rev s) as [|c r] eqn:Hrev.
  - apply (f_equal (@rev N)) in Hrev. rewrite rev_involutive in Hrev. done.
  - exists (rev r), c. split; [|done].
    apply (f_equal (@rev N)) in Hrev. by rewrite rev_involutive in Hrev.
Qed.

Lemma trim_framed a m z :
  trimmed a → a ≠ [] → trimmed z → z ≠ [] → trim (a ++ m ++ z) = a ++ m ++ z.
Proof.
  intros Ha Hane Hz Hzne.
  destruct (trimmed_last z Hz Hzne) as (z' & c & -> & Hc).
  rewrite !app_assoc. apply trim_snoc; [|done].
  apply trimmed_clean_head in Ha. by destruct a.
Qed.

Lemma filter_truthy_all (l : list jstring) :
  Forall (λ b, b ≠ []) l → filter truthy l = l.
Proof.
  induction 1 as [|b l Hb _ IH]; [done|].
  rewrite filter_cons_True by done. by rewrite IH.
Qed.

Lemma join_BULLET x l :
  join BULLET (x :: l) = x ++ concat ((λ b, BULLET ++ b) <$> l).
Proof.
  revert x. induction l as [|y l IH]; intros x.
  - cbn. by rewrite app_nil_r.
  - change (join BULLET (x :: y :: l)) with (x ++ BULLET ++ join BULLET (y :: l)).
    rewrite IH. cbn [fmap list_fmap concat]. by rewrite <- !app_assoc.
Qed.

(** The condensed entry is the trimmed title followed by the trimmed,
    non-empty bullets, each behind a bullet sign. *)
Lemma condenseExperience_shape n e :
  condenseExperience n e
  = trim (Exp.role e ++ DASH ++ Exp.company e)
    ++ concat ((λ b, BULLET ++ b)
               <$> filter truthy (trim <$> take n (Exp.description e))).
Proof.
  unfold condenseExperience. rewrite filter_cons_True; [apply join_BULLET|].
  intros Heq.
  assert (0x2014%N ∈ trim (Exp.role e ++ DASH ++ Exp.company e)) as Hin.
  { apply elem_of_trim; [|done]. unfold DASH. set_solver. }
  rewrite Heq in Hin. by apply elem_of_nil in Hin.
Qed.



(** *** Stripping, stated without [trim] *)

















(** C4 as worded fails.  The seventh job of [empty_first_bullet] has the
    bullets [''] and ['Ran it']: the worded string is
    [Dev — Acme •  • Ran it], with the empty bullet between two bullet
    signs, and the code, which drops a bullet that is empty once stripped,
    stores [Dev — Acme • Ran it]. *)
Lemma empty_bullet_is_left_out :
  achivements (preprocessResume empty_first_bullet)
  = Some [lit "Dev" ++ DASH ++ lit "Acme" ++ BULLET ++ lit "Ran it"]
  ∧ trim (spec_condensed_experience 4
            (Exp.mk (lit "Dev") (lit "Acme") (lit "2020") [[]; lit "Ran it"]))
    = lit "Dev" ++ DASH ++ lit "Acme" ++ BULLET ++ BULLET ++ lit "Ran it"
  ∧ ¬ spec_overflow_rule empty_first_bullet.
Proof.
  split_and!; try (vm_compute; reflexivity).
  intros H. specialize (H (layoutOf empty_first_bullet)
                          (layout_preprocessResume _)).
  assert (maxExperienceItems (layoutOf empty_first_bullet)
          < length (experience empty_first_bullet)) as Hlong by (vm_compute; lia).
  specialize (H Hlong). vm_compute in H. discriminate H.
Qed.

(** ** Bullets of the remaining entries *)

Lemma truncateBullet_trim L b : truncateBullet L (trim b) = spec_bullet L (trim b).
Proof.
  unfold truncateBullet, spec_bullet. case_match; [|done].
  by rewrite trim_clean by apply clean_head_take, clean_head_trim.
Qed.

(** C6, as amended: every bullet of a remaining entry is first stripped of
    the white space at its two ends; a stripped bullet strictly longer than
    [truncateCharPerLine] is replaced by its first [truncateCharPerLine - 1]
    code units, without trailing white space, followed by an ellipsis, and
    any other stripped bullet is kept.  In particular, in normal mode a
    bullet that is 300 long once stripped becomes its first 219 code units,
    without trailing white space, plus the ellipsis. *)
Theorem bullets_are_stripped_then_cut (d : ResumeData) (l : LayoutHints) :
  _layout (preprocessResume d) = Some l →
  (∀ i e,
     take (maxExperienceItems l) (experience d) !! i = Some e →
     ∃ e', experience (preprocessResume d) !! i = Some e'
           ∧ Exp.description e'
             = (λ b, spec_bullet (truncateCharPerLine l) (trim b))
               <$> take (maxBulletsPerExp l) (Exp.description e))
  ∧ (∀ b, compactMode l = false → length (trim b) = 300 →
          spec_bullet (truncateCharPerLine l) (trim b)
          = trimEnd (take 219 (trim b)) ++ ELLIPSIS).
Proof.
  rewrite layout_preprocessResume. intros [= <-]. split.
  - intros i e Hi. rewrite experience_preprocessResume, list_lookup_fmap, Hi.
    eexists. split; [reflexivity|].
    unfold trimExperience. cbn [Exp.description].
    rewrite <- list_fmap_compose. apply list_fmap_ext.
    intros _ b _. apply truncateBullet_trim.
  - intros b Hc Hb. destruct (caps_layoutOf d) as (_ & _ & _ & ->).
    rewrite Hc. unfold spec_bullet. by rewrite Hb.
Qed.

(** One job with one bullet of 300 letters: the bullet becomes 219 letters
    and an ellipsis. *)
Lemma bullets_are_stripped_then_cut_witness :
  ∃ e', experience (preprocessResume long_bullet) !! 0 = Some e'
        ∧ Exp.description e' = [replicate 219 120%N ++ ELLIPSIS].
Proof.
  destruct (bullets_are_stripped_then_cut long_bullet (layoutOf long_bullet)
              (layout_preprocessResume long_bullet)) as [H _].
  destruct (H 0 (Exp.mk (lit "Dev") (lit "Acme") (lit "2020") [replicate 300 120%N])
              eq_refl) as (e' & He' & Hd).
  exists e'. split; [exact He'|]. rewrite Hd. vm_compute. reflexivity.
Defined.

(** C6 as worded fails: a bullet [" a"], within the budget, is not left as
    it is, the result holds ["a"]; and a bullet of 300 code units that
    starts with 100 spaces comes out, in normal mode, as its 200 letters
    with no ellipsis. *)
Lemma short_bullet_is_not_left_unchanged :
  ¬ spec_bullets_rule padded_bullet
  ∧ compactMode (layoutOf indented_bullet) = false
  ∧ Exp.description <$> experience (preprocessResume indented_bullet)
    = [[replicate 200 120%N]].
Proof.
  split_and!; [|vm_compute; reflexivity..].
  intros H.
  destruct (H (layoutOf padded_bullet) 0
              (Exp.mk (lit "Dev") (lit "Acme") (lit "2020") [lit " a"])
              (layout_preprocessResume padded_bullet) eq_refl)
    as (e' & He' & Hd).
  vm_compute in He'. injection He' as <-. vm_compute in Hd. discriminate Hd.
Qed.

(** ** A second pass *)

Lemma truncateBullet_ok L b :
  1 ≤ L →
  trimmed (truncateBullet L (trim b)) ∧ length (truncateBullet L (trim b)) ≤ L.
Proof.
  intros HL. unfold truncateBullet. destruct (L <? length (trim b)) eqn:Hlt.
  - split.
    + apply trim_snoc; [apply clean_head_trim|done].
    + rewrite length_app. cbn [ELLIPSIS length].
      pose proof (length_trim (take (L - 1) (trim b))) as Hle.
      rewrite length_take in Hle. lia.
  - apply Nat.ltb_ge in Hlt. split; [apply trimmed_trim|done].
Qed.

Lemma truncateBullet_fixed L L' b :
  trimmed b → length b ≤ L → L ≤ L' → truncateBullet L' (trim b) = b.
Proof.
  intros Ht Hl HL. rewrite Ht. unfold truncateBullet.
  by rewrite (proj2 (Nat.ltb_ge _ _)) by lia.
Qed.

Lemma trimExperience_stable mb L mb' L' e :
  mb ≤ mb' → L ≤ L' → 1 ≤ L →
  trimExperience mb' L' (trimExperience mb L e) = trimExperience mb L e.
Proof.
  intros Hmb HL H1. unfold trimExperience.
  cbn [Exp.role Exp.company Exp.duration Exp.description]. f_equal.
  rewrite take_ge by (rewrite !length_fmap, length_take; lia).
  rewrite <- !list_fmap_compose. apply list_fmap_ext. intros _ b _.
  cbn [compose]. destruct (truncateBullet_ok L b H1) as [Ht Hl].
  by apply (truncateBullet_fixed L).
Qed.

Lemma or_empty_Some {A} (x : list A) : or_empty (Some x) = x.
Proof. reflexivity. Qed.

Lemma length_achivements_preprocessResume d :
  length (or_empty (achivements (preprocessResume d))) ≤ achCap (layoutOf d).
Proof.
  rewrite achivements_preprocessResume, or_empty_Some, length_take. lia.
Qed.

Lemma overflowEntries_nil d :
  length (experience d) ≤ maxExperienceItems (layoutOf d) →
  length (education d) ≤ maxEducationItems (layoutOf d) →
  overflowEntries d = [].
Proof.
  intros He Hd. unfold overflowEntries. cbv zeta.
  by rewrite (drop_ge _ _ He), (drop_ge _ _ Hd).
Qed.

(** C7, as amended: after a second pass on the result of a first pass, the
    achievements are no more than the first pass's cap; and whenever the
    second pass is not in a stricter mode than the first (the first pass
    was compact, or the second is not), it returns the experience list of
    its input as it is, so that no bullet is cut again. *)
Theorem second_pass_keeps_what_fits (d : ResumeData) (l1 l2 : LayoutHints) :
  _layout (preprocessResume d) = Some l1 →
  _layout (preprocessResume (preprocessResume d)) = Some l2 →
  length (or_empty (achivements (preprocessResume (preprocessResume d))))
  ≤ (if compactMode l1 then 6 else 12)
  ∧ (compactMode l1 = true ∨ compactMode l2 = false →
     experience (preprocessResume (preprocessResume d))
     = experience (preprocessResume d)).
Proof.
  rewrite !layout_preprocessResume. intros [= <-] [= <-].
  set (p1 := preprocessResume d).
  pose proof (caps_layoutOf d) as (Hme1 & Hmb1 & Hmd1 & HL1).
  pose proof (caps_layoutOf p1) as (Hme2 & Hmb2 & Hmd2 & HL2).
  assert (length (experience p1) ≤ maxExperienceItems (layoutOf d)) as Hlen1.
  { unfold p1. rewrite experience_preprocessResume, length_fmap, length_take. lia. }
  assert (length (education p1) ≤ maxEducationItems (layoutOf d)) as Hlen2.
  { unfold p1. rewrite education_preprocessResume, length_take. lia. }
  pose proof (length_achivements_preprocessResume d) as Hach1. fold p1 in Hach1.
  split.
  - destruct (compactMode (layoutOf d)) eqn:Hc1;
      destruct (compactMode (layoutOf p1)) eqn:Hc2.
    + pose proof (length_achivements_preprocessResume p1) as H.
      unfold achCap in H. by rewrite Hc2 in H.
    + rewrite achivements_preprocessResume, or_empty_Some.
      rewrite overflowEntries_nil by lia. rewrite app_nil_r, length_take.
      etrans; [apply Nat.le_min_r|]. etrans; [apply length_filter|].
      etrans; [apply Array_from_Set_length|]. rewrite length_fmap.
      unfold achCap in Hach1. by rewrite Hc1 in Hach1.
    + pose proof (length_achivements_preprocessResume p1) as H.
      unfold achCap in H. rewrite Hc2 in H. lia.
    + pose proof (length_achivements_preprocessResume p1) as H.
      unfold achCap in H. by rewrite Hc2 in H.
  - intros Hmode.
    assert (maxExperienceItems (layoutOf d) ≤ maxExperienceItems (layoutOf p1)
            ∧ maxBulletsPerExp (layoutOf d) ≤ maxBulletsPerExp (layoutOf p1)
            ∧ truncateCharPerLine (layoutOf d) ≤ truncateCharPerLine (layoutOf p1)
            ∧ 1 ≤ truncateCharPerLine (layoutOf d)) as (Hme & Hmb & HL & H1).
    { rewrite Hme1, Hme2, Hmb1, Hmb2, HL1, HL2.
      destruct (compactMode (layoutOf d)), (compactMode (layoutOf p1));
        cbv iota; try lia; destruct Hmode; discriminate. }
    rewrite (experience_preprocessResume p1).
    rewrite take_ge by lia.
    unfold p1 at 3 4. rewrite experience_preprocessResume.
    rewrite <- list_fmap_compose. apply list_fmap_ext. intros _ e _.
    cbn [compose]. by apply trimExperience_stable.
Qed.

(** Seven short jobs: both passes are in normal mode, and the second pass
    returns the six jobs of the first. *)
Lemma second_pass_keeps_what_fits_witness :
  experience (preprocessResume (preprocessResume seven_jobs))
  = experience (preprocessResume seven_jobs).
Proof.
  apply (second_pass_keeps_what_fits seven_jobs (layoutOf seven_jobs)
           (layoutOf (preprocessResume seven_jobs))
           (layout_preprocessResume _) (layout_preprocessResume _)).
  right. reflexivity.
Defined.

(** C7 as worded fails.  On [on_the_threshold] the first pass sees a
    density of exactly 2200 and runs in normal mode; condensing the
    overflowing job adds more code units than cutting the long bullet
    removes, so the second pass sees 2203, runs in compact mode and cuts
    the bullet of 220 down to 120. *)
Lemma second_pass_can_be_stricter :
  totalChars on_the_threshold = 2200
  ∧ totalChars (preprocessResume on_the_threshold) = 2203
  ∧ compactMode (layoutOf on_the_threshold) = false
  ∧ compactMode (layoutOf (preprocessResume on_the_threshold)) = true
  ∧ ((λ e, length <$> Exp.description e)
     <$> take 1 (experience (preprocessResume on_the_threshold))) = [[220]]
  ∧ ((λ e, length <$> Exp.description e)
     <$> take 1 (experience (preprocessResume (preprocessResume on_the_threshold))))
    = [[120]]
  ∧ ¬ spec_second_pass on_the_threshold.
Proof.
  split_and!; try (vm_compute; reflexivity).
  intros (_ & _ & H).
  assert (totalChars (preprocessResume on_the_threshold) = 2203) as E1
    by (vm_compute; reflexivity).
  assert (totalChars on_the_threshold = 2200) as E2 by (vm_compute; reflexivity).
  rewrite E1, E2 in H. lia.
Qed.

(** ** Malformed descriptions *)

Lemma mapM_fmap_Normal {A B C} (f : B → Js.completion C) (k : A → B)
    (g : A → C) (l : list A) :
  (∀ x, f (k x) = Js.Normal (g x)) → mapM f (k <$> l) = Js.Normal (g <$> l).
Proof.
  intros Hf. induction l as [|x l IH]; [done|].
  cbn [fmap list_fmap mapM]. fold (k <$> l). rewrite Hf, IH. reflexivity.
Qed.

(** On a well-typed list of entries the untyped [joinExpText] returns, and
    returns what the typed one does. *)
Lemma Js_joinExpText_typed (exp : list Exp.t) :
  Js.joinExpText (Js.Arr (Js.of_experience <$> exp))
  = Js.Normal (joinExpText (Some exp)).
Proof.
  unfold Js.joinExpText, joinExpText, Js.or_else, Js.Array_map.
  cbn [Js.ToBoolean or_empty default].
  erewrite mapM_fmap_Normal; [reflexivity|].
  intros e. unfold Js.of_experience.
  change (Js.Get (Js.Obj _) (lit "role")) with (Js.Normal (Js.Str (Exp.role e))).
  change (Js.Get (Js.Obj _) (lit "company")) with (Js.Normal (Js.Str (Exp.company e))).
  change (Js.Get (Js.Obj _) (lit "duration")) with (Js.Normal (Js.Str (Exp.duration e))).
  change (Js.Get (Js.Obj _) (lit "description"))
    with (Js.Normal (Js.Arr (Js.Str <$> Exp.description e))).
  cbn [mbind Js.completion_bind Js.ToString Js.ToBoolean Js.Array_join].
  rewrite (mapM_fmap_Normal _ Js.Str Datatypes.id) by done.
  cbn [mbind Js.completion_bind]. by rewrite list_fmap_id.
Qed.





(** * Further properties of the code *)

(** ** [uniqStrings] *)

Lemma Set_add_all_filter_seen seen l :
  Set_add_all seen l = seen ++ Array_from_Set (filter (λ y, y ∉ seen) l).
Proof.
  unfold Array_from_Set. remember (length l) as n eqn:Hn. revert seen l Hn.
  induction n as [n IH] using lt_wf_ind. intros seen [|x l] ->.
  { by rewrite app_nil_r. }
  cbn [Set_add_all]. case_bool_decide as Hx.
  - rewrite filter_cons_False by (intros ?; done).
    eapply IH; [|reflexivity]. cbn. lia.
  - rewrite filter_cons_True by done. cbn [Set_add_all].
    rewrite bool_decide_eq_false_2 by apply not_elem_of_nil.
    rewrite (IH (length l) ltac:(cbn; lia) (seen ++ [x]) l eq_refl).
    rewrite (IH (length (filter (λ y, y ∉ seen) l))
               ltac:(cbn; pose proof (length_filter (λ y, y ∉ seen) l); lia)
               ([] ++ [x]) _ eq_refl).
    rewrite <- app_assoc. do 2 f_equal.
    rewrite list_filter_filter. f_equal. apply list_filter_iff.
    intros y. rewrite !elem_of_app, list_elem_of_singleton, elem_of_nil. tauto.
Qed.

Lemma Array_from_Set_cons x l :
  Array_from_Set (x :: l) = x :: Array_from_Set (filter (λ y, y ≠ x) l).
Proof.
  unfold Array_from_Set at 1. cbn [Set_add_all].
  rewrite bool_decide_eq_false_2 by apply not_elem_of_nil.
  rewrite Set_add_all_filter_seen. cbn [app]. do 2 f_equal.
  apply list_filter_iff. intros y. by rewrite list_elem_of_singleton.
Qed.

Lemma filter_ne_notin (x : list N) (l : list (list N)) : x ∉ l → filter (λ y, y ≠ x) l = l.
Proof.
  induction l as [|y l IH]; [done|]. intros [Hne Hx]%not_elem_of_cons.
  rewrite filter_cons_True by congruence. f_equal. by apply IH.
Qed.

Lemma Array_from_Set_NoDup_id l : NoDup l → Array_from_Set l = l.
Proof.
  induction 1 as [|x l Hx _ IH]; [done|].
  rewrite Array_from_Set_cons, filter_ne_notin by done. by f_equal.
Qed.

Lemma elem_of_Array_from_Set x l : x ∈ Array_from_Set l ↔ x ∈ l.
Proof.
  unfold Array_from_Set. rewrite elem_of_Set_add_all, elem_of_nil. tauto.
Qed.

Lemma Array_from_Set_sublist l : Array_from_Set l `sublist_of` l.
Proof.
  remember (length l) as n eqn:Hn. revert l Hn.
  induction n as [n IH] using lt_wf_ind. intros [|x l] ->; [done|].
  rewrite Array_from_Set_cons. apply sublist_skip.
  etrans; [|apply (sublist_filter (λ y, y ≠ x))].
  apply (IH (length (filter (λ y, y ≠ x) l))); [|reflexivity].
  cbn. pose proof (length_filter (λ y, y ≠ x) l). lia.
Qed.

Lemma Array_from_Set_filter (P : list N → Prop) `{∀ x, Decision (P x)} l :
  filter P (Array_from_Set l) = Array_from_Set (filter P l).
Proof.
  remember (length l) as n eqn:Hn. revert l Hn.
  induction n as [n IH] using lt_wf_ind. intros [|x l] ->; [done|].
  rewrite Array_from_Set_cons.
  assert (filter P (Array_from_Set (filter (λ y, y ≠ x) l))
          = Array_from_Set (filter (λ y, y ≠ x) (filter P l))) as Hrec.
  { assert (length (filter (λ y, y ≠ x) l) < length (x :: l)) as Hlt
      by (cbn; pose proof (length_filter (λ y, y ≠ x) l); lia).
    rewrite (IH _ Hlt _ eq_refl). f_equal. rewrite !list_filter_filter. apply list_filter_iff. tauto. }
  destruct (decide (P x)) as [HP|HP].
  - rewrite !filter_cons_True by done. rewrite Array_from_Set_cons. by f_equal.
  - rewrite !filter_cons_False by done. rewrite Hrec. f_equal.
    rewrite list_filter_filter. apply list_filter_iff.
    intros y. split; [by intros [_ ?]|]. intros HPy. split; [|done]. by intros ->.
Qed.

Lemma uniqStrings_NoDup arr : NoDup (uniqStrings arr).
Proof. apply Array_from_Set_NoDup. Qed.

Lemma elem_of_uniqStrings x arr :
  x ∈ uniqStrings arr ↔ x ≠ [] ∧ ∃ s, s ∈ or_empty arr ∧ x = trim s.
Proof.
  unfold uniqStrings. rewrite elem_of_Array_from_Set, list_elem_of_filter, list_elem_of_fmap.
  unfold truthy. split; intros [Hx (s & H1 & H2)]; split; eauto.
Qed.

Lemma uniqStrings_trimmed arr : Forall trimmed (uniqStrings arr).
Proof.
  apply Forall_forall. intros x (_ & s & _ & ->)%elem_of_uniqStrings.
  apply trimmed_trim.
Qed.

Lemma fmap_trim_trimmed l : Forall trimmed l → trim <$> l = l.
Proof.
  intros H. rewrite <- (list_fmap_id l) at 2. by apply Forall_fmap_ext_1.
Qed.

Lemma uniqStrings_fixed l :
  NoDup l → Forall (λ s, trimmed s ∧ s ≠ []) l → uniqStrings (Some l) = l.
Proof.
  intros Hnd Hl. unfold uniqStrings. rewrite or_empty_Some.
  rewrite fmap_trim_trimmed by (eapply Forall_impl; [exact Hl|]; by intros ? []).
  rewrite filter_truthy_all by (eapply Forall_impl; [exact Hl|]; by intros ? []).
  by apply Array_from_Set_NoDup_id.
Qed.

Lemma uniqStrings_good arr :
  Forall (λ s, trimmed s ∧ s ≠ []) (uniqStrings arr).
Proof.
  apply Forall_forall. intros x Hx. split.
  - revert x Hx. apply Forall_forall, uniqStrings_trimmed.
  - by apply elem_of_uniqStrings in Hx as [? _].
Qed.

(** X1: [uniqStrings] keeps the first occurrence of every trimmed,
    non-empty string and drops the rest; its result has no duplicates, is
    made of exactly the non-empty trimmed inputs, in their order, and is
    left as it is by a second application. *)
Theorem uniqStrings_first_occurrences (arr : option (list jstring)) :
  uniqStrings None = []
  ∧ (∀ x l, uniqStrings (Some (x :: l))
            = if decide (trim x = [])
              then uniqStrings (Some l)
              else trim x :: uniqStrings (Some (filter (λ y, trim y ≠ trim x) l)))
  ∧ NoDup (uniqStrings arr)
  ∧ (∀ x, x ∈ uniqStrings arr ↔ x ≠ [] ∧ ∃ s, s ∈ or_empty arr ∧ x = trim s)
  ∧ uniqStrings arr `sublist_of` (trim <$> or_empty arr)
  ∧ uniqStrings (Some (uniqStrings arr)) = uniqStrings arr.
Proof.
  split_and!.
  - reflexivity.
  - intros x l. unfold uniqStrings. rewrite !or_empty_Some. cbn [fmap list_fmap].
    fold (trim <$> l). case_decide as Hx.
    + by rewrite filter_cons_False by (unfold truthy; tauto).
    + rewrite filter_cons_True by done. rewrite Array_from_Set_cons. do 2 f_equal.
      rewrite list_filter_filter.
      induction l as [|y l IH]; [done|]. cbn [fmap list_fmap]. fold (trim <$> l).
      destruct (decide (trim y ≠ trim x ∧ truthy (trim y))) as [Hy|Hy].
      * rewrite filter_cons_True by tauto. rewrite (filter_cons_True _ y) by tauto.
        cbn [fmap list_fmap]. fold (trim <$> filter (λ y, trim y ≠ trim x) l).
        rewrite filter_cons_True by tauto. by rewrite IH.
      * rewrite filter_cons_False by tauto.
        destruct (decide (trim y ≠ trim x)) as [Hne|Heq].
        -- rewrite (filter_cons_True _ y) by done.
           cbn [fmap list_fmap]. fold (trim <$> filter (λ y, trim y ≠ trim x) l).
           rewrite filter_cons_False by tauto. exact IH.
        -- rewrite (filter_cons_False _ y) by done. exact IH.
  - apply uniqStrings_NoDup.
  - intros x. apply elem_of_uniqStrings.
  - unfold uniqStrings. etrans; [apply Array_from_Set_sublist|apply sublist_filter].
  - apply uniqStrings_fixed; [apply uniqStrings_NoDup|apply uniqStrings_good].
Qed.

(** ** The remaining fields of the result *)

Ltac result_field d :=
  unfold preprocessResume, JSON_clone, layoutOf; fields;
  destruct (_ <? length (experience d)); fields;
  destruct (_ <? length (education d)); reflexivity.

Lemma skills_preprocessResume d :
  skills (preprocessResume d)
  = Some (take (if compactMode (layoutOf d) then 12 else 30) (uniqStrings (skills d))).
Proof. result_field d. Qed.

Lemma softSkills_preprocessResume d :
  softSkills (preprocessResume d)
  = Some (take (if compactMode (layoutOf d) then 6 else 12) (uniqStrings (softSkills d))).
Proof. result_field d. Qed.

Lemma languages_preprocessResume d :
  languages (preprocessResume d)
  = Some (take (if compactMode (layoutOf d) then 3 else 8) (uniqStrings (languages d))).
Proof. result_field d. Qed.

Lemma certifications_preprocessResume d :
  certifications (preprocessResume d)
  = Some (take 20 (normalizeCertification <$> or_empty (certifications d))).
Proof.
  unfold preprocessResume, JSON_clone, layoutOf; fields;
  destruct (_ <? length (experience d)); fields;
  destruct (_ <? length (education d)); fields; by destruct (certifications d).
Qed.

Lemma untouched_preprocessResume d :
  name (preprocessResume d) = name d
  ∧ title (preprocessResume d) = title d
  ∧ photoUrl (preprocessResume d) = photoUrl d
  ∧ contact (preprocessResume d) = contact d
  ∧ summary (preprocessResume d) = summary d
  ∧ volunteer (preprocessResume d) = volunteer d
  ∧ interests (preprocessResume d) = interests d.
Proof.
  unfold preprocessResume, JSON_clone, layoutOf; fields;
  destruct (_ <? length (experience d)); fields;
  destruct (_ <? length (education d)); done.
Qed.


Lemma normalised_from_take cap input :
  normalised_from cap input (take cap (uniqStrings input)).
Proof.
  unfold normalised_from. split_and!.
  - rewrite length_take. lia.
  - eapply sublist_NoDup; [apply uniqStrings_NoDup|apply sublist_take].
  - apply Forall_take, Forall_forall. intros s Hs. split_and!.
    + by apply elem_of_uniqStrings in Hs as [? _].
    + revert s Hs. apply Forall_forall, uniqStrings_trimmed.
    + by apply elem_of_uniqStrings in Hs as [_ ?].
  - apply prefix_take.
Qed.

(** X2: in the result, [skills], [softSkills] and [languages] are always
    present; each holds the first entries of the deduplicated input (at
    most 30, 12 and 8 of them, or 12, 6 and 3 in compact mode), so it has
    no duplicates and every entry is a non-empty input entry without white
    space at its ends. *)
Theorem skill_lists_are_normalised (d : ResumeData) :
  let c := compactMode (layoutOf d) in
  ∃ sk so la,
    skills (preprocessResume d) = Some sk
    ∧ softSkills (preprocessResume d) = Some so
    ∧ languages (preprocessResume d) = Some la
    ∧ normalised_from (if c then 12 else 30) (skills d) sk
    ∧ normalised_from (if c then 6 else 12) (softSkills d) so
    ∧ normalised_from (if c then 3 else 8) (languages d) la.
Proof.
  cbv zeta. eexists _, _, _. split_and!.
  - apply skills_preprocessResume.
  - apply softSkills_preprocessResume.
  - apply languages_preprocessResume.
  - apply normalised_from_take.
  - apply normalised_from_take.
  - apply normalised_from_take.
Qed.

Lemma normalizeCertification_idem c :
  normalizeCertification (normalizeCertification c) = normalizeCertification c.
Proof.
  unfold normalizeCertification. cbn [Cert.name Cert.year].
  change (default [] (Some ?x)) with x. by rewrite !trim_idem.
Qed.

(** X3: in the result [certifications] is always present and holds the
    first 20 certifications of the input, in order, each with its name
    trimmed and with a year that is present and trimmed (empty when the
    input had none). *)
Theorem certifications_are_normalised (d : ResumeData) :
  ∃ cs,
    certifications (preprocessResume d) = Some cs
    ∧ length cs = min 20 (length (or_empty (certifications d)))
    ∧ Cert.name <$> cs
      = trim <$> (Cert.name <$> take 20 (or_empty (certifications d)))
    ∧ Cert.year <$> cs
      = (λ c, Some (trim (default [] (Cert.year c))))
        <$> take 20 (or_empty (certifications d))
    ∧ Forall (λ c, trimmed (Cert.name c)
                   ∧ ∃ y, Cert.year c = Some y ∧ trimmed y) cs.
Proof.
  eexists. split; [apply certifications_preprocessResume|].
  rewrite <- fmap_take. split_and!.
  - by rewrite length_fmap, length_take.
  - by rewrite <- !list_fmap_compose.
  - by rewrite <- !list_fmap_compose.
  - apply Forall_fmap, Forall_forall. intros c _. split; [apply trimmed_trim|].
    eexists. split; [reflexivity|apply trimmed_trim].
Qed.

(** X4: the function never edits [name], [title], [photoUrl], [contact],
    [summary], [volunteer] or [interests]; the education entries of the
    result are the first entries of the input, unchanged; and the roles,
    companies and durations of the experience entries of the result are
    those of the first entries of the input. *)
Theorem only_lists_are_edited (d : ResumeData) :
  name (preprocessResume d) = name d
  ∧ title (preprocessResume d) = title d
  ∧ photoUrl (preprocessResume d) = photoUrl d
  ∧ contact (preprocessResume d) = contact d
  ∧ summary (preprocessResume d) = summary d
  ∧ volunteer (preprocessResume d) = volunteer d
  ∧ interests (preprocessResume d) = interests d
  ∧ education (preprocessResume d) `prefix_of` education d
  ∧ (Exp.role <$> experience (preprocessResume d))
      `prefix_of` (Exp.role <$> experience d)
  ∧ (Exp.company <$> experience (preprocessResume d))
      `prefix_of` (Exp.company <$> experience d)
  ∧ (Exp.duration <$> experience (preprocessResume d))
      `prefix_of` (Exp.duration <$> experience d).
Proof.
  destruct (untouched_preprocessResume d) as (?&?&?&?&?&?&?).
  split_and!; try done.
  - rewrite education_preprocessResume. apply prefix_take.
  - rewrite experience_preprocessResume, <- list_fmap_compose.
    change (Exp.role ∘ _) with Exp.role. rewrite fmap_take. apply prefix_take.
  - rewrite experience_preprocessResume, <- list_fmap_compose.
    change (Exp.company ∘ _) with Exp.company. rewrite fmap_take. apply prefix_take.
  - rewrite experience_preprocessResume, <- list_fmap_compose.
    change (Exp.duration ∘ _) with Exp.duration. rewrite fmap_take. apply prefix_take.
Qed.

(** ** Priority among the achievements *)

Lemma Set_add_all_app seen l1 l2 :
  Set_add_all seen (l1 ++ l2) = Set_add_all (Set_add_all seen l1) l2.
Proof.
  revert seen. induction l1 as [|x l1 IH]; intros seen; [done|]. cbn. apply IH.
Qed.

Lemma Array_from_Set_app l1 l2 :
  Array_from_Set (l1 ++ l2)
  = Array_from_Set l1
    ++ Array_from_Set (filter (λ y, y ∉ Array_from_Set l1) l2).
Proof.
  unfold Array_from_Set at 1. rewrite Set_add_all_app.
  apply Set_add_all_filter_seen.
Qed.

Lemma overflowEntries_truthy d : Forall truthy (overflowEntries d).
Proof.
  unfold overflowEntries. cbv zeta. apply Forall_app. split.
  - apply Forall_fmap, Forall_forall. intros e _. apply condenseExperience_truthy.
  - apply Forall_fmap, Forall_forall. intros e _. apply condenseEducation_truthy.
Qed.

(** The final achievements: the deduplicated existing ones, then the new
    overflow entries, cut at the cap. *)
Lemma achivements_split d :
  ∃ new,
    achivements (preprocessResume d)
    = Some (take (achCap (layoutOf d)) (uniqStrings (achivements d) ++ new))
    ∧ length new ≤ length (overflowEntries d)
    ∧ (∀ x, x ∈ new ↔ x ∈ overflowEntries d
                       ∧ x ∉ uniqStrings (achivements d)).
Proof.
  exists (filter truthy
            (Array_from_Set
               (filter (λ y, y ∉ Array_from_Set (trim <$> or_empty (achivements d)))
                       (overflowEntries d)))).
  split_and!.
  - rewrite achivements_preprocessResume, Array_from_Set_app, filter_app.
    by rewrite Array_from_Set_filter.
  - etrans; [apply length_filter|]. etrans; [apply Array_from_Set_length|].
    apply length_filter.
  - intros x. rewrite list_elem_of_filter, elem_of_Array_from_Set, list_elem_of_filter.
    rewrite elem_of_Array_from_Set. unfold uniqStrings.
    rewrite elem_of_Array_from_Set, list_elem_of_filter.
    pose proof (overflowEntries_truthy d) as Ht.
    rewrite Forall_forall in Ht. split.
    + intros (Hx & Hn & Hin). split; [done|]. intros [_ ?]. done.
    + intros (Hin & Hn). split_and!; [by apply Ht| |done].
      intros Hx. apply Hn. split; [by apply Ht|done].
Qed.

(** X5: the existing achievements come first and are never displaced by
    overflow entries: the result starts with the deduplicated existing
    achievements (as many as the cap admits), and holds nothing else when
    they already reach the cap; every entry of the result is a non-empty
    trimmed existing achievement or a condensed overflow entry; and when
    the deduplicated existing achievements and the overflow entries
    together fit under the cap, every overflow entry is in the result. *)
Theorem existing_achievements_come_first (d : ResumeData) :
  let cap := if compactMode (layoutOf d) then 6 else 12 in
  let old := uniqStrings (achivements d) in
  ∃ ach,
    achivements (preprocessResume d) = Some ach
    ∧ take cap old `prefix_of` ach
    ∧ (cap ≤ length old → ach = take cap old)
    ∧ (∀ x, x ∈ ach → x ∈ old ∨ x ∈ overflowEntries d)
    ∧ (length old + length (overflowEntries d) ≤ cap →
       ∀ x, x ∈ overflowEntries d → x ∈ ach).
Proof.
  cbv zeta. destruct (achivements_split d) as (new & Ha & Hlen & Hnew).
  change (achCap (layoutOf d)) with (if compactMode (layoutOf d) then 6 else 12) in Ha.
  eexists. split; [exact Ha|]. rewrite take_app. split_and!.
  - by eexists.
  - intros Hcap. replace (_ - _) with 0 by lia. by rewrite take_0, app_nil_r.
  - intros x [Hx|Hx]%elem_of_app.
    + left. eapply elem_of_sublist; [exact Hx|apply sublist_take].
    + right. eapply elem_of_sublist in Hx; [|apply sublist_take].
      by apply Hnew in Hx as [? _].
  - intros Hfit x Hx. rewrite <- take_app, take_ge by (rewrite length_app; lia).
    apply elem_of_app.
    destruct (decide (x ∈ uniqStrings (achivements d))); [by left|].
    right. by apply Hnew.
Qed.

(** ** A second pass, on every field *)

Lemma resume_ext (p q : ProcessedResume) :
  name p = name q → title p = title q → photoUrl p = photoUrl q →
  contact p = contact q → summary p = summary q →
  experience p = experience q → education p = education q →
  certifications p = certifications q → achivements p = achivements q →
  volunteer p = volunteer q → skills p = skills q →
  softSkills p = softSkills q → languages p = languages q →
  interests p = interests q → _layout p = _layout q → p = q.
Proof. destruct p, q. cbn. by intros -> -> -> -> -> -> -> -> -> -> -> -> -> -> ->. Qed.

Lemma trimmed_title_bullets (t : list N) (bs : list (list N)) :
  trimmed t → t ≠ [] → Forall (λ b, trimmed b ∧ b ≠ []) bs →
  trimmed (t ++ concat ((λ b, BULLET ++ b) <$> bs)).
Proof.
  intros Ht Hne Hbs. revert t Ht Hne.
  induction Hbs as [|b bs [Hb Hbne] _ IH]; intros t Ht Hne.
  - cbn. by rewrite app_nil_r.
  - cbn [fmap list_fmap concat]. rewrite <- app_assoc, !app_assoc, <- (app_assoc t).
    apply IH; [by apply trim_framed|by destruct t].
Qed.

Lemma trimmed_condenseExperience n e : trimmed (condenseExperience n e).
Proof.
  rewrite condenseExperience_shape. apply trimmed_title_bullets.
  - apply trimmed_trim.
  - intros Heq.
    assert (0x2014%N ∈ trim (Exp.role e ++ DASH ++ Exp.company e)) as Hin.
    { apply elem_of_trim; [|done]. unfold DASH. set_solver. }
    rewrite Heq in Hin. by apply elem_of_nil in Hin.
  - apply Forall_forall. intros b [Hb Hin]%list_elem_of_filter.
    split; [|done]. apply list_elem_of_fmap in Hin as (x & -> & _).
    apply trimmed_trim.
Qed.

Lemma overflowEntries_trimmed d : Forall trimmed (overflowEntries d).
Proof.
  unfold overflowEntries. cbv zeta. apply Forall_app. split.
  - apply Forall_fmap, Forall_forall. intros e _. apply trimmed_condenseExperience.
  - apply Forall_fmap, Forall_forall. intros e _. apply trimmed_trim.
Qed.

Lemma achivements_good d ach :
  achivements (preprocessResume d) = Some ach →
  NoDup ach ∧ Forall (λ s, trimmed s ∧ s ≠ []) ach
  ∧ length ach ≤ achCap (layoutOf d).
Proof.
  rewrite achivements_preprocessResume. intros [= <-]. split_and!.
  - eapply sublist_NoDup; [|apply sublist_take].
    apply NoDup_filter, Array_from_Set_NoDup.
  - apply Forall_take, Forall_forall. intros s [Hs Hin]%list_elem_of_filter.
    split; [|done].
    apply elem_of_Array_from_Set, elem_of_app in Hin as [Hin|Hin].
    + apply list_elem_of_fmap in Hin as (x & -> & _). apply trimmed_trim.
    + clear Hs. revert s Hin. apply Forall_forall, overflowEntries_trimmed.
  - rewrite length_take. lia.
Qed.

Lemma take_uniqStrings_again c1 c2 input :
  c1 ≤ c2 →
  take c2 (uniqStrings (Some (take c1 (uniqStrings input))))
  = take c1 (uniqStrings input).
Proof.
  intros Hc. rewrite uniqStrings_fixed.
  - rewrite take_take. f_equal. lia.
  - eapply sublist_NoDup; [apply uniqStrings_NoDup|apply sublist_take].
  - apply Forall_take, uniqStrings_good.
Qed.

(** X6: on the result of a first pass, a second pass whose mode is not
    stricter (the first pass was compact, or the second is not) changes
    nothing but the layout hints: every content field comes back as it
    went in. *)
Theorem second_pass_returns_same_content (d : ResumeData) :
  compactMode (layoutOf d) = true
  ∨ compactMode (layoutOf (preprocessResume d)) = false →
  preprocessResume (preprocessResume d)
  = set_layout (layoutOf (preprocessResume d)) (preprocessResume d).
Proof.
  intros Hmode.
  pose proof (experience_preprocessResume d) as E1.
  pose proof (education_preprocessResume d) as E2.
  pose proof (certifications_preprocessResume d) as E3.
  pose proof (skills_preprocessResume d) as E4.
  pose proof (softSkills_preprocessResume d) as E5.
  pose proof (languages_preprocessResume d) as E6.
  pose proof (achivements_good d) as E7.
  pose proof (caps_layoutOf d) as (Hme1 & Hmb1 & Hmd1 & HL1).
  remember (preprocessResume d) as p1 eqn:Hp1.
  pose proof (caps_layoutOf p1) as (Hme2 & Hmb2 & Hmd2 & HL2).
  assert (maxExperienceItems (layoutOf d) ≤ maxExperienceItems (layoutOf p1)
          ∧ maxBulletsPerExp (layoutOf d) ≤ maxBulletsPerExp (layoutOf p1)
          ∧ maxEducationItems (layoutOf d) ≤ maxEducationItems (layoutOf p1)
          ∧ truncateCharPerLine (layoutOf d) ≤ truncateCharPerLine (layoutOf p1)
          ∧ 1 ≤ truncateCharPerLine (layoutOf d)
          ∧ achCap (layoutOf d) ≤ achCap (layoutOf p1)
          ∧ (if compactMode (layoutOf d) then 12 else 30)
            ≤ (if compactMode (layoutOf p1) then 12 else 30)
          ∧ (if compactMode (layoutOf d) then 6 else 12)
            ≤ (if compactMode (layoutOf p1) then 6 else 12)
          ∧ (if compactMode (layoutOf d) then 3 else 8)
            ≤ (if compactMode (layoutOf p1) then 3 else 8))
    as (Hme & Hmb & Hmd & HL & H1 & Hach & Hsk & Hso & Hla).
  { unfold achCap. rewrite Hme1, Hme2, Hmb1, Hmb2, Hmd1, Hmd2, HL1, HL2.
    destruct (compactMode (layoutOf d)), (compactMode (layoutOf p1));
      cbv iota; try lia; destruct Hmode; discriminate. }
  assert (length (experience p1) ≤ maxExperienceItems (layoutOf p1)) as Hlen1.
  { rewrite E1, length_fmap, length_take. lia. }
  assert (length (education p1) ≤ maxEducationItems (layoutOf p1)) as Hlen2.
  { rewrite E2, length_take. lia. }
  destruct (untouched_preprocessResume p1) as (?&?&?&?&?&?&?).
  apply resume_ext; fields; try done.
  - rewrite (experience_preprocessResume p1), take_ge by done. rewrite E1.
    rewrite <- list_fmap_compose. apply list_fmap_ext. intros _ e _.
    cbn [compose]. by apply trimExperience_stable.
  - rewrite (education_preprocessResume p1). by apply take_ge.
  - rewrite (certifications_preprocessResume p1), E3, or_empty_Some. f_equal.
    rewrite <- !fmap_take, take_take, Nat.min_id, <- list_fmap_compose.
    apply list_fmap_ext. intros _ c _. apply normalizeCertification_idem.
  - destruct (achivements p1) as [ach|] eqn:Ha.
    2:{ rewrite Hp1, achivements_preprocessResume in Ha. done. }
    destruct (E7 ach eq_refl) as (Hnd & Hgood & Hcap).
    rewrite (achivements_preprocessResume p1), Ha, or_empty_Some.
    rewrite overflowEntries_nil by done. rewrite app_nil_r. f_equal.
    rewrite Array_from_Set_filter.
    change (Array_from_Set (filter truthy (trim <$> ach)))
      with (uniqStrings (Some ach)).
    rewrite uniqStrings_fixed by done. apply take_ge. lia.
  - rewrite (skills_preprocessResume p1), E4. f_equal.
    by apply take_uniqStrings_again.
  - rewrite (softSkills_preprocessResume p1), E5. f_equal.
    by apply take_uniqStrings_again.
  - rewrite (languages_preprocessResume p1), E6. f_equal.
    by apply take_uniqStrings_again.
  - apply layout_preprocessResume.
Qed.

(** Seven short jobs: both passes run in normal mode. *)
Lemma second_pass_returns_same_content_witness :
  preprocessResume (preprocessResume seven_jobs)
  = set_layout (layoutOf (preprocessResume seven_jobs)) (preprocessResume seven_jobs).
Proof.
  apply (second_pass_returns_same_content seven_jobs). right. reflexivity.
Defined.

(** ** Scale and font sizes across densities *)

Lemma clamp_cases v a b :
  (a <= b)%R →
  ((v <= a)%R → clamp v a b = a)
  ∧ ((a <= v <= b)%R → clamp v a b = v)
  ∧ ((b <= v)%R → clamp v a b = b).
Proof.
  intros Hab. unfold clamp, Rmax, Rmin.
  split_and!; intros; repeat destruct (Rle_dec _ _); lra.
Qed.

Lemma clamp_mono v v' a b : (v <= v')%R → (clamp v a b <= clamp v' a b)%R.
Proof.
  intros Hv. unfold clamp, Rmax, Rmin. repeat destruct (Rle_dec _ _); lra.
Qed.

Lemma Math_round_mono x y : (x <= y)%R → (Math_round x <= Math_round y)%R.
Proof. intros Hxy. unfold Math_round. apply IZR_le, Zfloor_le. lra. Qed.

Lemma Math_round_eq x z :
  (IZR z - / 2 <= x < IZR z + / 2)%R → Math_round x = IZR z.
Proof. intros Hx. unfold Math_round. f_equal. apply Zfloor_eq. lra. Qed.

Lemma Rmax_1_INR_pos t : (0 < Rmax 1 (INR t))%R.
Proof. eapply Rlt_le_trans; [|apply Rmax_l]. lra. Qed.

Lemma Rmax_1_INR t : 1 ≤ t → Rmax 1 (INR t) = INR t.
Proof.
  intros Ht. apply Rmax_right. change 1%R with (INR 1). by apply le_INR.
Qed.

Lemma rawScale_pos t : (0 < INR TARGET_CHARS / Rmax 1 (INR t))%R.
Proof.
  apply Rdiv_lt_0_compat; [|apply Rmax_1_INR_pos].
  unfold TARGET_CHARS. apply lt_0_INR. lia.
Qed.

Lemma rawScale_mono t t' :
  t ≤ t' →
  (INR TARGET_CHARS / Rmax 1 (INR t') <= INR TARGET_CHARS / Rmax 1 (INR t))%R.
Proof.
  intros Ht. unfold Rdiv. apply Rmult_le_compat_l.
  - apply pos_INR.
  - apply Rinv_le_contravar; [apply Rmax_1_INR_pos|].
    apply Rle_max_compat_l. by apply le_INR.
Qed.

Lemma globalScale_mono t t' : t ≤ t' → (globalScale t' <= globalScale t)%R.
Proof.
  intros Ht. unfold globalScale, Math_pow. apply clamp_mono.
  apply Rle_Rpower_l; [lra|]. split; [apply rawScale_pos|by apply rawScale_mono].
Qed.

Lemma sidebarPenalty_mono t t' :
  t ≤ t' → (0 < sidebarPenalty t' <= sidebarPenalty t)%R.
Proof.
  intros Ht. unfold sidebarPenalty, COMPACT_CHAR_THRESHOLD.
  destruct (4200 <? t) eqn:H1; destruct (4200 <? t') eqn:H2; try lra.
  apply Nat.ltb_lt in H1. apply Nat.ltb_ge in H2. lia.
Qed.

Lemma Rpower_half_049 : Rpower 0.49 0.5 = 0.7%R.
Proof.
  replace 0.5%R with (/ 2)%R by lra. rewrite Rpower_sqrt by lra.
  replace 0.49%R with (0.7 * 0.7)%R by lra. apply sqrt_square. lra.
Qed.

Lemma Rpower_half_1 : Rpower 1 0.5 = 1%R.
Proof. unfold Rpower. by rewrite ln_1, Rmult_0_r, exp_0. Qed.

Lemma rawScale_at t :
  1 ≤ t → (INR TARGET_CHARS / Rmax 1 (INR t))%R = (3600 / IZR (Z.of_nat t))%R.
Proof.
  intros Ht. rewrite Rmax_1_INR by done. unfold TARGET_CHARS.
  by rewrite !INR_IZR_INZ.
Qed.

(** The scale is 1 exactly up to a density of 3600 and at its floor 0.7
    exactly from 7347 on. *)
Lemma globalScale_regimes t :
  (t ≤ 3600 → globalScale t = 1%R)
  ∧ (3600 < t → (globalScale t < 1)%R)
  ∧ ((Z.of_nat t < 7347)%Z → (0.7 < globalScale t)%R)
  ∧ ((7347 ≤ Z.of_nat t)%Z → globalScale t = 0.7%R).
Proof.
  split_and!.
  - apply globalScale_low.
  - intros Ht. unfold globalScale, Math_pow. rewrite rawScale_at by lia.
    assert (3600 < IZR (Z.of_nat t))%R as Hr by (apply IZR_lt; lia).
    assert (Rpower (3600 / IZR (Z.of_nat t)) 0.5 < 1)%R as Hp.
    { rewrite <- Rpower_half_1. apply Rlt_Rpower_l; [lra|]. split.
      - apply Rdiv_lt_0_compat; lra.
      - apply (Rmult_lt_reg_r (IZR (Z.of_nat t))); [lra|]. unfold Rdiv.
        rewrite Rmult_assoc, Rinv_l by lra. lra. }
    unfold clamp, Rmax, Rmin. repeat destruct (Rle_dec _ _); lra.
  - intros Ht. unfold globalScale, Math_pow.
    destruct (decide (t = 0)) as [->|Hne].
    { cbn [INR]. rewrite Rmax_left by lra. unfold TARGET_CHARS.
      rewrite INR_IZR_INZ. change (Z.of_nat 3600) with 3600%Z.
      assert (Rpower 0.49 0.5 < Rpower (3600 / 1) 0.5)%R as Hp.
      { apply Rlt_Rpower_l; lra. }
      rewrite Rpower_half_049 in Hp.
      unfold clamp, Rmax, Rmin. repeat destruct (Rle_dec _ _); lra. }
    rewrite rawScale_at by lia.
    assert (0 < IZR (Z.of_nat t) <= 7346)%R as Hr.
    { split; [apply IZR_lt; lia|apply IZR_le; lia]. }
    assert (Rpower 0.49 0.5 < Rpower (3600 / IZR (Z.of_nat t)) 0.5)%R as Hp.
    { apply Rlt_Rpower_l; [lra|]. split; [lra|].
      apply (Rmult_lt_reg_r (IZR (Z.of_nat t))); [lra|]. unfold Rdiv.
      rewrite Rmult_assoc, Rinv_l by lra. lra. }
    rewrite Rpower_half_049 in Hp.
    unfold clamp, Rmax, Rmin. repeat destruct (Rle_dec _ _); lra.
  - intros Ht. unfold globalScale, Math_pow. rewrite rawScale_at by lia.
    assert (7347 <= IZR (Z.of_nat t))%R as Hr by (apply IZR_le; lia).
    assert (Rpower (3600 / IZR (Z.of_nat t)) 0.5 <= Rpower 0.49 0.5)%R as Hp.
    { apply Rle_Rpower_l; [lra|]. split.
      - apply Rdiv_lt_0_compat; lra.
      - apply (Rmult_le_reg_r (IZR (Z.of_nat t))); [lra|]. unfold Rdiv.
        rewrite Rmult_assoc, Rinv_l by lra. lra. }
    rewrite Rpower_half_049 in Hp.
    unfold clamp, Rmax, Rmin. repeat destruct (Rle_dec _ _); lra.
Qed.

Lemma sidebarPenalty_low t : t ≤ 4200 → sidebarPenalty t = 1%R.
Proof.
  intros Ht. unfold sidebarPenalty, COMPACT_CHAR_THRESHOLD.
  by rewrite (proj2 (Nat.ltb_ge _ _)).
Qed.

Lemma sidebarPenalty_high t : 4200 < t → sidebarPenalty t = 0.88%R.
Proof.
  intros Ht. unfold sidebarPenalty, COMPACT_CHAR_THRESHOLD.
  by rewrite (proj2 (Nat.ltb_lt _ _)).
Qed.

Lemma namePenalty_none n : n ≤ 24 → (24 <? n) = false.
Proof. intros. by apply Nat.ltb_ge. Qed.

(** X7: up to the target density of 3600 nothing shrinks: the scale is 1,
    the section sizes are their base values 14, 12, 12, 11 and 10, and a
    name of at most 24 code units gets 40; above 3600 the scale is
    strictly below 1. *)
Theorem nothing_shrinks_up_to_the_target (n t : nat) :
  (t ≤ 3600 →
   let l := layoutHints n t in
   let f := sectionFontSizes l in
   globalScale t = 1%R
   ∧ Fonts.sectionTitle f = 14%R
   ∧ Fonts.body f = 12%R
   ∧ Fonts.sidebarTitle f = 12%R
   ∧ Fonts.sidebarBody f = 11%R
   ∧ Fonts.duration f = 10%R
   ∧ (n ≤ 24 → nameFontSize l = 40%R ∧ Fonts.name f = 40%R))
  ∧ (3600 < t → (globalScale t < 1)%R).
Proof.
  split; [|apply globalScale_regimes].
  intros Ht. cbv zeta. unfold layoutHints.
  cbn [sectionFontSizes nameFontSize Fonts.sectionTitle Fonts.body
       Fonts.sidebarTitle Fonts.sidebarBody Fonts.duration Fonts.name].
  rewrite globalScale_low by done. rewrite sidebarPenalty_low by lia.
  split_and!; try reflexivity.
  - rewrite (Math_round_eq _ 14) by lra. apply clamp_cases; lra.
  - rewrite (Math_round_eq _ 12) by lra. apply clamp_cases; lra.
  - rewrite (Math_round_eq _ 12) by lra. apply clamp_cases; lra.
  - rewrite (Math_round_eq _ 11) by lra. apply clamp_cases; lra.
  - rewrite (Math_round_eq _ 10) by lra. apply clamp_cases; lra.
  - intros Hn. rewrite namePenalty_none by done.
    rewrite (Math_round_eq _ 40) by lra. split; apply clamp_cases; lra.
Qed.

(** A name and nothing else, ten code units long. *)
Lemma nothing_shrinks_witness :
  Fonts.body (sectionFontSizes (layoutHints 10 10)) = 12%R.
Proof.
  destruct (nothing_shrinks_up_to_the_target 10 10) as [H _].
  destruct (H ltac:(lia)) as (_ & _ & Hb & _). exact Hb.
Defined.

(** X8: from a density of 7347 on, every size is at its smallest: the
    scale is at its floor 0.7 and the section sizes are 10, 9, 9, 8 and 8,
    the lower ends of their windows; a name of at most 24 code units gets
    28.  Below 7347 the scale is strictly above 0.7. *)
Theorem everything_is_smallest_from_7347 (n t : nat) :
  ((7347 ≤ Z.of_nat t)%Z →
   let l := layoutHints n t in
   let f := sectionFontSizes l in
   globalScale t = 0.7%R
   ∧ compactMode l = true
   ∧ Fonts.sectionTitle f = 10%R
   ∧ Fonts.body f = 9%R
   ∧ Fonts.sidebarTitle f = 9%R
   ∧ Fonts.sidebarBody f = 8%R
   ∧ Fonts.duration f = 8%R
   ∧ (n ≤ 24 → nameFontSize l = 28%R))
  ∧ ((Z.of_nat t < 7347)%Z → (0.7 < globalScale t)%R).
Proof.
  split; [|apply globalScale_regimes].
  intros Ht. cbv zeta. unfold layoutHints.
  cbn [sectionFontSizes nameFontSize compactMode Fonts.sectionTitle Fonts.body
       Fonts.sidebarTitle Fonts.sidebarBody Fonts.duration Fonts.name].
  destruct (globalScale_regimes t) as (_ & _ & _ & Hfloor). rewrite (Hfloor Ht).
  rewrite sidebarPenalty_high by lia.
  split_and!; try reflexivity.
  - unfold MEDIUM_CHARS. apply Nat.ltb_lt. lia.
  - rewrite (Math_round_eq _ 10) by lra. apply clamp_cases; lra.
  - rewrite (Math_round_eq _ 8) by lra. apply clamp_cases; lra.
  - rewrite (Math_round_eq _ 7) by lra. apply clamp_cases; lra.
  - rewrite (Math_round_eq _ 7) by lra. apply clamp_cases; lra.
  - rewrite (Math_round_eq _ 7) by lra. apply clamp_cases; lra.
  - intros Hn. rewrite namePenalty_none by done.
    rewrite (Math_round_eq _ 28) by lra. apply clamp_cases; lra.
Qed.

(** A density of 8000. *)
Lemma everything_is_smallest_witness :
  Fonts.body (sectionFontSizes (layoutHints 10 (Z.to_nat 8000))) = 9%R.
Proof.
  destruct (everything_is_smallest_from_7347 10 (Z.to_nat 8000)) as [H _].
  destruct (H ltac:(lia)) as (_ & _ & _ & Hb & _). exact Hb.
Defined.

(** X9: a denser resume never gets a larger size or a looser cap: with the
    name length fixed, every font size, every cap and the line budget at a
    density [t'] are at most what they are at a density [t ≤ t'], and
    compact mode, once on, stays on. *)
Theorem denser_is_never_larger (n t t' : nat) :
  t ≤ t' →
  let l := layoutHints n t in
  let l' := layoutHints n t' in
  (compactMode l = true → compactMode l' = true)
  ∧ maxExperienceItems l' ≤ maxExperienceItems l
  ∧ maxBulletsPerExp l' ≤ maxBulletsPerExp l
  ∧ maxEducationItems l' ≤ maxEducationItems l
  ∧ truncateCharPerLine l' ≤ truncateCharPerLine l
  ∧ (nameFontSize l' <= nameFontSize l)%R
  ∧ (Fonts.sectionTitle (sectionFontSizes l')
     <= Fonts.sectionTitle (sectionFontSizes l))%R
  ∧ (Fonts.body (sectionFontSizes l') <= Fonts.body (sectionFontSizes l))%R
  ∧ (Fonts.sidebarTitle (sectionFontSizes l')
     <= Fonts.sidebarTitle (sectionFontSizes l))%R
  ∧ (Fonts.sidebarBody (sectionFontSizes l')
     <= Fonts.sidebarBody (sectionFontSizes l))%R
  ∧ (Fonts.duration (sectionFontSizes l')
     <= Fonts.duration (sectionFontSizes l))%R.
Proof.
  intros Ht. cbv zeta. unfold layoutHints.
  cbn [sectionFontSizes nameFontSize compactMode maxExperienceItems
       maxBulletsPerExp maxEducationItems truncateCharPerLine
       Fonts.sectionTitle Fonts.body Fonts.sidebarTitle Fonts.sidebarBody
       Fonts.duration Fonts.name].
  pose proof (globalScale_mono t t' Ht) as Hg.
  pose proof (globalScale_bounds t) as Hb.
  pose proof (globalScale_bounds t') as Hb'.
  pose proof (sidebarPenalty_mono t t' Ht) as Hp.
  assert (sidebarPenalty t <= 1)%R as Hp1.
  { unfold sidebarPenalty. destruct (_ <? _); lra. }
  assert ((MEDIUM_CHARS <? t) = true → (MEDIUM_CHARS <? t') = true) as Hc.
  { rewrite !Nat.ltb_lt. lia. }
  split_and!; try (apply clamp_mono, Math_round_mono; nra).
  - exact Hc.
  - destruct (MEDIUM_CHARS <? t); destruct (MEDIUM_CHARS <? t');
      lia || by specialize (Hc eq_refl).
  - destruct (MEDIUM_CHARS <? t); destruct (MEDIUM_CHARS <? t');
      lia || by specialize (Hc eq_refl).
  - destruct (MEDIUM_CHARS <? t); destruct (MEDIUM_CHARS <? t');
      lia || by specialize (Hc eq_refl).
  - destruct (MEDIUM_CHARS <? t); destruct (MEDIUM_CHARS <? t');
      lia || by specialize (Hc eq_refl).
Qed.

(** Densities 100 and 3000. *)
Lemma denser_is_never_larger_witness :
  truncateCharPerLine (layoutHints 10 3000) ≤ truncateCharPerLine (layoutHints 10 100).
Proof.
  destruct (denser_is_never_larger 10 100 3000 ltac:(lia)) as (_&_&_&_&H&_).
  exact H.
Defined.

(** X10: the size of the name depends on its length only beyond 24 code
    units, never grows with it, and is the minimum 16 for every name of 119
    code units or more, whatever the density. *)
Theorem longer_name_is_never_larger (t : nat) :
  (∀ n, n ≤ 24 → nameFontSize (layoutHints n t) = nameFontSize (layoutHints 0 t))
  ∧ (∀ n n', n ≤ n' →
       (nameFontSize (layoutHints n' t) <= nameFontSize (layoutHints n t))%R)
  ∧ (∀ n, 119 ≤ n → nameFontSize (layoutHints n t) = 16%R).
Proof.
  unfold layoutHints. cbn [nameFontSize].
  pose proof (globalScale_bounds t) as Hb.
  split_and!.
  - intros n Hn. by rewrite namePenalty_none.
  - intros n n' Hn. apply clamp_mono, Math_round_mono.
    pose proof (le_INR _ _ Hn) as Hr.
    destruct (24 <? n) eqn:H1; destruct (24 <? n') eqn:H2; try lra.
    + apply Nat.ltb_lt in H1. apply Nat.ltb_ge in H2. lia.
    + apply Nat.ltb_lt in H2. apply lt_INR in H2.
      rewrite (INR_IZR_INZ 24) in H2.
      change (IZR (Z.of_nat 24)) with 24%R in H2. lra.
  - intros n Hn. rewrite (proj2 (Nat.ltb_lt 24 n)) by lia.
    pose proof (le_INR _ _ Hn) as Hr. rewrite (INR_IZR_INZ 119) in Hr.
    change (IZR (Z.of_nat 119)) with 119%R in Hr.
    apply clamp_cases; [lra|].
    etrans; [apply (Math_round_mono _ 16.25); lra|].
    rewrite (Math_round_eq _ 16) by lra. lra.
Qed.

(** ** The templates *)

Lemma suffix_trimStart s : trimStart s `suffix_of` s.
Proof.
  induction s as [|c s IH]; [done|]. cbn [trimStart].
  destruct (is_white c); [by apply suffix_cons_r|done].
Qed.

Lemma prefix_trimEnd s : trimEnd s `prefix_of` s.
Proof.
  unfold trimEnd. destruct (suffix_trimStart (rev s)) as [k Hk].
  exists (rev k). apply (f_equal (@rev N)) in Hk.
  by rewrite rev_involutive, rev_app_distr in Hk.
Qed.

Lemma sublist_trim s : trim s `sublist_of` s.
Proof.
  unfold trim. destruct (prefix_trimEnd (trimStart s)) as [k Hk].
  destruct (suffix_trimStart s) as [k' Hk'].
  rewrite Hk' at 2. rewrite Hk at 2.
  apply sublist_inserts_l, sublist_inserts_r. done.
Qed.

Lemma length_truncateBullet L s : 1 ≤ L → length (truncateBullet L s) ≤ L.
Proof.
  intros HL. unfold truncateBullet. destruct (L <? length s) eqn:Hlt.
  - rewrite length_app. cbn [ELLIPSIS length].
    pose proof (length_trim (take (L - 1) s)) as Hle.
    rewrite length_take in Hle. lia.
  - by apply Nat.ltb_ge in Hlt.
Qed.

Lemma truncate_truncateBullet s n : 1 ≤ n → Template.truncate s n = truncateBullet n s.
Proof.
  intros Hn. unfold Template.truncate, truncateBullet, Template.String_slice0.
  destruct (decide (truthy s)) as [Hs|Hs].
  - rewrite (proj2 (Z.ltb_ge _ _)) by lia.
    by replace (Z.to_nat (Z.of_nat n - 1)) with (n - 1) by lia.
  - apply dec_stable in Hs. subst s. by destruct n.
Qed.

Lemma truncate_short s n : length s ≤ n → Template.truncate s n = s.
Proof.
  intros Hl. unfold Template.truncate.
  rewrite (proj2 (Nat.ltb_ge _ _)) by done. by destruct (decide _).
Qed.

(** X11: the [truncate] of the templates.  A string within the budget
    [n] comes back as it is.  For a budget of at least one the function is
    the cut that [preprocessResume] applies to a bullet, its result is at
    most [n] code units long and a second application changes nothing.  A
    string over the budget becomes a trimmed subsequence of itself followed
    by an ellipsis.  With a budget of zero [slice(0, -1)] drops only the
    last code unit, so the result can be longer than the budget. *)
Theorem template_truncate_cuts_to_budget (s : jstring) (n : nat) :
  (length s ≤ n → Template.truncate s n = s)
  ∧ (1 ≤ n →
       Template.truncate s n = truncateBullet n s
       ∧ length (Template.truncate s n) ≤ n
       ∧ Template.truncate (Template.truncate s n) n = Template.truncate s n)
  ∧ (n < length s →
       ∃ kept, Template.truncate s n = kept ++ ELLIPSIS
               ∧ trimmed kept ∧ kept `sublist_of` s ∧ length kept < length s)
  ∧ (s ≠ [] → Template.truncate s 0 = trim (take (length s - 1) s) ++ ELLIPSIS).
Proof.
  split_and!.
  - apply truncate_short.
  - intros Hn. rewrite !truncate_truncateBullet by done.
    pose proof (length_truncateBullet n s Hn) as Hl. split_and!; [done..|].
    unfold truncateBullet at 1. by rewrite (proj2 (Nat.ltb_ge _ _)) by done.
  - intros Hlt. unfold Template.truncate.
    destruct (decide (truthy s)) as [_|Hs].
    2:{ apply dec_stable in Hs. subst s. cbn [length] in Hlt. lia. }
    rewrite (proj2 (Nat.ltb_lt _ _)) by done.
    eexists. split; [done|]. split; [apply trimmed_trim|].
    assert (∃ k, k < length s ∧ Template.String_slice0 s (Z.of_nat n - 1) = take k s)
      as (k & Hk & ->).
    { unfold Template.String_slice0. destruct (_ <? 0)%Z eqn:Hneg.
      - exists (length s - Z.to_nat (- (Z.of_nat n - 1))). split; [|done].
        apply Z.ltb_lt in Hneg. lia.
      - exists (Z.to_nat (Z.of_nat n - 1)). split; [|done].
        apply Z.ltb_ge in Hneg. lia. }
    split; [etrans; [apply sublist_trim|apply sublist_take]|].
    pose proof (length_trim (take k s)) as Hle. rewrite length_take in Hle. lia.
  - intros Hs. unfold Template.truncate, Template.String_slice0.
    rewrite decide_True by done.
    destruct s as [|c s]; [done|]. cbn [length Nat.ltb Nat.leb].
    reflexivity.
Qed.

(** X12: [sliceWithCount] splits a list at the limit without losing
    count: the items are the first [limit] elements, [more] is the number
    of elements left out, the two add up to [total], and nothing is left
    out exactly when the list is within the limit.  A value that is not an
    array gives the empty slice. *)
Theorem sliceWithCount_accounts_for_every_item {A} (a : list A) (limit : nat) :
  let r := Template.sliceWithCount (Some a) limit in
  Template.items r ++ drop limit a = a
  ∧ Template.more r = length (drop limit a)
  ∧ length (Template.items r) + Template.more r = Template.total r
  ∧ length (Template.items r) ≤ limit
  ∧ (Template.more r = 0 ↔ Template.items r = a)
  ∧ Template.sliceWithCount (@None (list A)) limit = Template.mkSlice [] 0 0.
Proof.
  cbv zeta. unfold Template.sliceWithCount.
  cbn [Template.items Template.more Template.total].
  rewrite take_drop, length_drop, length_take.
  split_and!; try done; try lia.
  - split.
    + intros H. apply take_ge. lia.
    + intros H. apply (f_equal length) in H. rewrite length_take in H. lia.
  - by destruct limit.
Qed.

Lemma hint_preprocessResume {A} d (field : LayoutHints → A) (dflt : A) :
  Template.hint (preprocessResume d) field dflt = field (layoutOf d).
Proof. unfold Template.hint. by rewrite layout_preprocessResume. Qed.

Lemma truncateCharPerLine_layoutOf d :
  truncateCharPerLine (layoutOf d) = (if 2200 <? totalChars d then 120 else 220).
Proof. reflexivity. Qed.

Lemma truncateCharPerLine_bounds d :
  1 ≤ truncateCharPerLine (layoutOf d) ≤ 240.
Proof. rewrite truncateCharPerLine_layoutOf. destruct (_ <? _); lia. Qed.

(** X13: the templates have nothing left to hide in a result of
    [preprocessResume].  Slicing the experience and education lists by the
    hints of the result keeps every entry and counts no remainder; for
    every experience entry of the result the bullets rendered by
    [creative.tsx] and [modern.tsx] are its bullets, uncut and with no
    closing 'more' item, and so are the bullets rendered by [minimal.tsx]
    with its fixed budget of 240. *)
Theorem templates_show_all_of_the_result (d : ResumeData) :
  let p := preprocessResume d in
  Template.items (Template.expSlice p) = experience p
  ∧ Template.more (Template.expSlice p) = 0
  ∧ Template.items (Template.eduSlice p) = education p
  ∧ Template.more (Template.eduSlice p) = 0
  ∧ ∀ e, e ∈ experience p →
      Template.bullets p e = Exp.description e
      ∧ Template.moreBullets p e = None
      ∧ Template.minimalBullets e = Exp.description e.
Proof.
  cbv zeta.
  unfold Template.expSlice, Template.eduSlice, Template.sliceWithCount,
    Template.bullets, Template.moreBullets, Template.minimalBullets,
    Template.maxExperienceItems, Template.maxEducationItems,
    Template.maxBullets, Template.truncateChars.
  cbn [Template.items Template.more].
  rewrite !hint_preprocessResume.
  assert (length (experience (preprocessResume d)) ≤ maxExperienceItems (layoutOf d))
    as He.
  { rewrite experience_preprocessResume, length_fmap, length_take. lia. }
  assert (length (education (preprocessResume d)) ≤ maxEducationItems (layoutOf d))
    as Hd.
  { rewrite education_preprocessResume, length_take. lia. }
  split_and!.
  - by apply take_ge.
  - lia.
  - by apply take_ge.
  - lia.
  - intros e Hin. rewrite experience_preprocessResume in Hin.
    apply list_elem_of_fmap in Hin as (e0 & -> & _).
    pose proof (length_description_trimExperience
                  (maxBulletsPerExp (layoutOf d))
                  (truncateCharPerLine (layoutOf d)) e0) as Hl.
    pose proof (truncateCharPerLine_bounds d) as HL.
    assert (Forall (λ b, length b ≤ truncateCharPerLine (layoutOf d))
              (Exp.description
                 (trimExperience (maxBulletsPerExp (layoutOf d))
                    (truncateCharPerLine (layoutOf d)) e0))) as Hall.
    { unfold trimExperience. cbn [Exp.description].
      apply Forall_fmap, Forall_forall. intros b _. cbn [compose].
      apply length_truncateBullet. lia. }
    split_and!.
    + rewrite take_ge by done.
      rewrite <- (list_fmap_id (Exp.description _)) at 2.
      apply Forall_fmap_ext_1. eapply Forall_impl; [exact Hall|].
      intros b Hb. cbn beta. by apply truncate_short.
    + by rewrite (proj2 (Nat.ltb_ge _ _)) by done.
    + rewrite <- (list_fmap_id (Exp.description _)) at 2.
      apply Forall_fmap_ext_1. eapply Forall_impl; [exact Hall|].
      intros b Hb. cbn beta in *. apply truncate_short.
      unfold Datatypes.id. lia.
Qed.

(** X14: the summary is cut by the template and not by
    [preprocessResume].  The result carries the summary of the input as it
    is; [creative.tsx] and [modern.tsx] then render it through [truncate]
    with the line budget of the result, 120 in compact mode and 220
    otherwise, so what is shown has at most that many code units and is the
    whole summary only when the summary fits. *)
Theorem summary_is_cut_by_the_template_only (d : ResumeData) :
  let p := preprocessResume d in
  let L := if 2200 <? totalChars d then 120 else 220 in
  summary p = summary d
  ∧ Template.shownSummary p = truncateBullet L (summary d)
  ∧ length (Template.shownSummary p) ≤ L
  ∧ (Template.shownSummary p = summary d ↔ length (summary d) ≤ L).
Proof.
  cbv zeta. unfold Template.shownSummary, Template.truncateChars.
  rewrite hint_preprocessResume, truncateCharPerLine_layoutOf.
  destruct (untouched_preprocessResume d) as (_&_&_&_& -> &_).
  set (L := if 2200 <? totalChars d then 120 else 220).
  assert (1 ≤ L) as HL by (unfold L; destruct (_ <? _); lia).
  rewrite truncate_truncateBullet by done.
  split_and!; [done..|by apply length_truncateBullet|].
  split.
  - intros <-. by apply length_truncateBullet.
  - intros Hle. unfold truncateBullet. by rewrite (proj2 (Nat.ltb_ge _ _)) by done.
Qed.

(** ** The normaliser of the API route *)

Lemma own_of_optional key fs :
  Js.own key (Api.of_optional fs) = Api.own_optional key fs.
Proof.
  induction fs as [|[k [v|]] fs IH]; [done|..].
  - change (Api.of_optional ((k, Some v) :: fs)) with ((k, v) :: Api.of_optional fs).
    cbn [Js.own Api.own_optional]. by rewrite IH.
  - change (Api.of_optional ((k, None) :: fs)) with (Api.of_optional fs).
    cbn [Api.own_optional]. rewrite IH. by destruct (bool_decide _).
Qed.

Lemma Get_of_optional fs key :
  Js.Get (Js.Obj (Api.of_optional fs)) key
  = Js.Normal (default Js.Undefined (Api.own_optional key fs)).
Proof. unfold Js.Get. by rewrite own_of_optional. Qed.

Lemma toString_or_empty_optional (o : option jstring) :
  Api.toString_or_empty (from_option Js.Str Js.Undefined o) = Js.Normal (default [] o).
Proof. by destruct o. Qed.

Lemma map_if_array_typed {A B} (f : A → Js.value) (g : Js.value → Js.completion B)
    (h : A → B) (o : option (list A)) :
  (∀ x, g (f x) = Js.Normal (h x)) →
  Api.map_if_array (from_option (λ l, Js.Arr (f <$> l)) Js.Undefined o) g
  = Js.Normal (h <$> or_empty o).
Proof.
  intros Hg. destruct o as [l|]; [|done].
  cbn [from_option Api.map_if_array]. by apply mapM_fmap_Normal.
Qed.

Lemma strings_typed (l : list jstring) :
  Api.map_if_array (Js.Arr (Js.Str <$> l)) Js.ToString = Js.Normal l.
Proof.
  cbn [Api.map_if_array]. rewrite (mapM_fmap_Normal _ Js.Str Datatypes.id) by done.
  by rewrite list_fmap_id.
Qed.

Lemma normalizeExperience_typed (e : Exp.t) :
  Api.normalizeExperience (Js.of_experience e) = Js.Normal e.
Proof.
  unfold Api.normalizeExperience, Api.text, Api.strings, Js.of_experience.
  change (Js.Get (Js.Obj _) (lit "role")) with (Js.Normal (Js.Str (Exp.role e))).
  change (Js.Get (Js.Obj _) (lit "company")) with (Js.Normal (Js.Str (Exp.company e))).
  change (Js.Get (Js.Obj _) (lit "duration")) with (Js.Normal (Js.Str (Exp.duration e))).
  change (Js.Get (Js.Obj _) (lit "description"))
    with (Js.Normal (Js.Arr (Js.Str <$> Exp.description e))).
  cbn [mbind Js.completion_bind Api.toString_or_empty Js.ToString].
  rewrite strings_typed. by destruct e.
Qed.

Lemma normalizeEducation_typed (e : Edu.t) :
  Api.normalizeEducation (Api.of_education e) = Js.Normal e.
Proof.
  unfold Api.normalizeEducation, Api.text, Api.of_education.
  change (Js.Get (Js.Obj _) (lit "degree")) with (Js.Normal (Js.Str (Edu.degree e))).
  change (Js.Get (Js.Obj _) (lit "school")) with (Js.Normal (Js.Str (Edu.school e))).
  change (Js.Get (Js.Obj _) (lit "year")) with (Js.Normal (Js.Str (Edu.year e))).
  by destruct e.
Qed.

Lemma normalizeCertification_typed (c : Cert.t) :
  Api.normalizeCertification (Api.of_certification c)
  = Js.Normal (Cert.mk (Cert.name c) (Some (default [] (Cert.year c)))).
Proof.
  unfold Api.normalizeCertification, Api.text, Api.of_certification.
  rewrite !Get_of_optional. by destruct c as [n [y|]].
Qed.

Lemma normalizeVolunteer_typed (v : Vol.t) :
  Api.normalizeVolunteer (Api.of_volunteer v)
  = Js.Normal (Vol.mk (Vol.role v) (Vol.org v) (Some (default [] (Vol.duration v)))
                 (Vol.description v)).
Proof.
  unfold Api.normalizeVolunteer, Api.text, Api.strings, Api.of_volunteer.
  rewrite !Get_of_optional.
  change (Api.own_optional (lit "role") _) with (Some (Js.Str (Vol.role v))).
  change (Api.own_optional (lit "org") _) with (Some (Js.Str (Vol.org v))).
  destruct v as [r o [d|] ds]; cbn [Vol.role Vol.org Vol.duration Vol.description].
  - change (Api.own_optional (lit "duration") _) with (Some (Js.Str d)).
    change (Api.own_optional (lit "description") _)
      with (Some (Js.Arr (Js.Str <$> ds))).
    cbn [from_option Datatypes.id mbind Js.completion_bind Api.toString_or_empty
         Js.ToString].
    by rewrite strings_typed.
  - change (Api.own_optional (lit "duration") _) with (@None Js.value).
    change (Api.own_optional (lit "description") _)
      with (Some (Js.Arr (Js.Str <$> ds))).
    cbn [from_option Datatypes.id mbind Js.completion_bind Api.toString_or_empty
         Js.ToString].
    by rewrite strings_typed.
Qed.

Lemma text_opt_of_contact (c : Contact) :
  Api.text_opt (Api.of_contact c) "phone" = Js.Normal (default [] (phone c))
  ∧ Api.text_opt (Api.of_contact c) "email" = Js.Normal (default [] (email c))
  ∧ Api.text_opt (Api.of_contact c) "address" = Js.Normal (default [] (address c))
  ∧ Api.text_opt (Api.of_contact c) "linkedin" = Js.Normal (default [] (linkedin c)).
Proof.
  unfold Api.text_opt, Api.of_contact, Api.text. rewrite !Get_of_optional.
  by destruct c as [[?|] [?|] [?|] [?|]].
Qed.

Lemma Get_of_resume (d : ResumeData) :
  let get key := Js.Get (Api.of_resume d) (lit key) in
  get "name" = Js.Normal (Js.Str (name d))
  ∧ get "title" = Js.Normal (from_option Js.Str Js.Undefined (title d))
  ∧ get "photoUrl" = Js.Normal (from_option Js.Str Js.Undefined (photoUrl d))
  ∧ get "contact" = Js.Normal (Api.of_contact (contact d))
  ∧ get "summary" = Js.Normal (Js.Str (summary d))
  ∧ get "experience" = Js.Normal (Js.Arr (Js.of_experience <$> experience d))
  ∧ get "education" = Js.Normal (Js.Arr (Api.of_education <$> education d))
  ∧ get "certifications"
    = Js.Normal (from_option (λ l, Js.Arr (Api.of_certification <$> l)) Js.Undefined
                   (certifications d))
  ∧ get "achivements"
    = Js.Normal (from_option (λ l, Js.Arr (Js.Str <$> l)) Js.Undefined (achivements d))
  ∧ get "volunteer"
    = Js.Normal (from_option (λ l, Js.Arr (Api.of_volunteer <$> l)) Js.Undefined
                   (volunteer d))
  ∧ get "skills"
    = Js.Normal (from_option (λ l, Js.Arr (Js.Str <$> l)) Js.Undefined (skills d))
  ∧ get "softSkills"
    = Js.Normal (from_option (λ l, Js.Arr (Js.Str <$> l)) Js.Undefined (softSkills d))
  ∧ get "languages"
    = Js.Normal (from_option (λ l, Js.Arr (Js.Str <$> l)) Js.Undefined (languages d))
  ∧ get "interests"
    = Js.Normal (from_option (λ l, Js.Arr (Js.Str <$> l)) Js.Undefined (interests d)).
Proof.
  cbv zeta. unfold Api.of_resume. rewrite !Get_of_optional.
  destruct d as [n t p c s ex ed ce ac vo sk so la int lay].
  cbn [name title photoUrl contact summary experience education certifications
       achivements volunteer skills softSkills languages interests].
  split_and!.
  - done.
  - by destruct t.
  - by destruct p.
  - done.
  - done.
  - done.
  - done.
  - by destruct ce.
  - by destruct ac.
  - by destruct vo.
  - by destruct sk.
  - by destruct so.
  - by destruct la.
  - by destruct int.
Qed.

Lemma map_array_typed {A} (f : A → Js.value) (g : Js.value → Js.completion A)
    (l : list A) :
  (∀ x, g (f x) = Js.Normal x) →
  Api.map_if_array (Js.Arr (f <$> l)) g = Js.Normal l.
Proof.
  intros Hg. cbn [Api.map_if_array].
  rewrite (mapM_fmap_Normal _ f Datatypes.id) by done. by rewrite list_fmap_id.
Qed.

Lemma strings_optional (o : option (list jstring)) :
  Api.map_if_array (from_option (λ l, Js.Arr (Js.Str <$> l)) Js.Undefined o) Js.ToString
  = Js.Normal (or_empty o).
Proof. destruct o as [l|]; [apply strings_typed|done]. Qed.

Lemma normalized_of_resume (profileImage : option jstring) (d : ResumeData) :
  Api.normalized profileImage (Api.of_resume d)
  = Js.Normal
      (mkResume (name d) (Some (default [] (title d)))
         (Some match profileImage with
               | Some (c :: img) => c :: img
               | _ => default [] (photoUrl d)
               end)
         (mkContact (Some (default [] (phone (contact d))))
                    (Some (default [] (email (contact d))))
                    (Some (default [] (address (contact d))))
                    (Some (default [] (linkedin (contact d)))))
         (summary d) (experience d) (education d)
         (Some ((λ c, Cert.mk (Cert.name c) (Some (default [] (Cert.year c))))
                <$> or_empty (certifications d)))
         (Some (or_empty (achivements d)))
         (Some ((λ v, Vol.mk (Vol.role v) (Vol.org v)
                        (Some (default [] (Vol.duration v))) (Vol.description v))
                <$> or_empty (volunteer d)))
         (Some (or_empty (skills d))) (Some (or_empty (softSkills d)))
         (Some (or_empty (languages d))) (Some (or_empty (interests d))) None).
Proof.
  unfold Api.normalized, Api.text, Api.strings.
  destruct (Get_of_resume d) as (E1&E2&E3&E4&E5&E6&E7&E8&E9&E10&E11&E12&E13&E14).
  cbv zeta in *.
  destruct (text_opt_of_contact (contact d)) as (C1&C2&C3&C4).
  rewrite E1, E2, E3, E4, E5, E6, E7, E8, E9, E10, E11, E12, E13, E14.
  cbn [mbind Js.completion_bind Api.toString_or_empty Js.ToString].
  rewrite !toString_or_empty_optional, C1, C2, C3, C4.
  rewrite (map_array_typed _ _ _ normalizeExperience_typed).
  rewrite (map_array_typed _ _ _ normalizeEducation_typed).
  rewrite (map_if_array_typed _ _ _ _ normalizeCertification_typed).
  rewrite (map_if_array_typed _ _ _ _ normalizeVolunteer_typed).
  rewrite !strings_optional.
  cbn [mbind Js.completion_bind].
  by destruct profileImage as [[|c img]|].
Qed.

(** X15: the normaliser gives back a typed resume with its gaps filled.
    On the object that a resume of type [ResumeData] is at run time the
    route answers 200; the mandatory fields and the entries of every list
    are those of the resume, each absent optional string is the empty
    string, each absent optional list is the empty list, the photograph is
    the one of the request when the request has one, no layout is
    attached, and normalising the answer again returns it unchanged. *)
Theorem normaliser_fills_a_typed_resume (profileImage : option jstring)
    (d : ResumeData) :
  ∃ r, Api.respond profileImage (Api.of_resume d) = Api.Status200 r
    ∧ name r = name d ∧ summary r = summary d
    ∧ experience r = experience d ∧ education r = education d
    ∧ title r = Some (default [] (title d))
    ∧ photoUrl r = Some match profileImage with
                        | Some (c :: img) => c :: img
                        | _ => default [] (photoUrl d)
                        end
    ∧ contact r = mkContact (Some (default [] (phone (contact d))))
                            (Some (default [] (email (contact d))))
                            (Some (default [] (address (contact d))))
                            (Some (default [] (linkedin (contact d))))
    ∧ certifications r
      = Some ((λ c, Cert.mk (Cert.name c) (Some (default [] (Cert.year c))))
              <$> or_empty (certifications d))
    ∧ volunteer r
      = Some ((λ v, Vol.mk (Vol.role v) (Vol.org v)
                      (Some (default [] (Vol.duration v))) (Vol.description v))
              <$> or_empty (volunteer d))
    ∧ achivements r = Some (or_empty (achivements d))
    ∧ skills r = Some (or_empty (skills d))
    ∧ softSkills r = Some (or_empty (softSkills d))
    ∧ languages r = Some (or_empty (languages d))
    ∧ interests r = Some (or_empty (interests d))
    ∧ _layout r = None
    ∧ Api.respond profileImage (Api.of_resume r) = Api.Status200 r.
Proof.
  eexists. unfold Api.respond.
  change (Js.ToBoolean (Api.of_resume _)) with true. cbv iota.
  rewrite normalized_of_resume.
  split; [reflexivity|].
  cbn [name summary experience education title photoUrl contact certifications
       volunteer achivements skills softSkills languages interests _layout].
  split_and!; try reflexivity.
  change (Js.ToBoolean (Api.of_resume _)) with true. cbv iota.
  rewrite normalized_of_resume. f_equal.
  cbn [name summary experience education title photoUrl contact certifications
       volunteer achivements skills softSkills languages interests _layout
       phone email address linkedin from_option Datatypes.id or_empty].
  f_equal.
  - by destruct profileImage as [[|c img]|].
  - f_equal. rewrite <- list_fmap_compose. apply list_fmap_ext. by intros _ [n [y|]] _.
  - f_equal. rewrite <- list_fmap_compose. apply list_fmap_ext.
    by intros _ [ro o [du|] ds] _.
Qed.

Lemma mapM_Throw {A B} (f : A → Js.completion B) (l : list A) x e :
  x ∈ l → f x = Js.Throw e → ∃ e', mapM f l = Js.Throw e'.
Proof.
  intros Hin Hx. induction l as [|y l IH]; [by apply elem_of_nil in Hin|].
  cbn [mapM]. destruct (f y) as [b|e1] eqn:Hy; [|by eexists].
  cbn [mbind Js.completion_bind].
  apply elem_of_cons in Hin as [->|Hin]; [congruence|].
  destruct (IH Hin) as [e' ->]. by eexists.
Qed.

Lemma mapM_Normal_length {A B} (f : A → Js.completion B) (l : list A) k :
  mapM f l = Js.Normal k → length k = length l.
Proof.
  revert k. induction l as [|y l IH]; intros k; cbn [mapM].
  - by intros [= <-].
  - destruct (f y) as [b|]; [|done]. cbn [mbind Js.completion_bind].
    destruct (mapM f l) as [k'|]; [|done]. cbn [mbind Js.completion_bind].
    intros [= <-]. cbn [length]. by rewrite (IH k').
Qed.

Lemma map_if_array_length {B} (v : Js.value) (f : Js.value → Js.completion B) k :
  Api.map_if_array v f = Js.Normal k → length k = length (Api.elements v).
Proof.
  destruct v; cbn [Api.map_if_array Api.elements]; try by intros [= <-].
  apply mapM_Normal_length.
Qed.

Lemma bind_Normal_inv {A B} (m : Js.completion A) (f : A → Js.completion B) b :
  m ≫= f = Js.Normal b → ∃ a, m = Js.Normal a ∧ f a = Js.Normal b.
Proof. destruct m as [a|]; [|done]. intros H. by exists a. Qed.

Lemma entry_of_nullish_throws :
  ∀ v, v = Js.Null ∨ v = Js.Undefined →
    Api.normalizeExperience v = Js.Throw Js.TypeError
    ∧ Api.normalizeEducation v = Js.Throw Js.TypeError
    ∧ Api.normalizeCertification v = Js.Throw Js.TypeError
    ∧ Api.normalizeVolunteer v = Js.Throw Js.TypeError.
Proof. by intros v [-> | ->]. Qed.

Ltac bind_step :=
  lazymatch goal with
  | |- context [mbind _ ?m] =>
      destruct m eqn:?; cbn [mbind Js.completion_bind]; [|done]
  end.

(** X16: what the route makes of a parsed value that is no resume.  A
    falsy value is answered with status 500.  Any other value that is not
    an object (true, a non-empty string, an array) is read like the empty
    object: every property is missing, and the answer is status 200 with
    the empty resume, which carries the photograph of the request. *)
Theorem non_object_is_read_as_the_empty_object (profileImage : option jstring)
    (parsed : Js.value) :
  (Js.ToBoolean parsed = false → Api.respond profileImage parsed = Api.Status500)
  ∧ (Js.ToBoolean parsed = true → (∀ fields, parsed ≠ Js.Obj fields) →
       Api.respond profileImage parsed
       = Api.Status200
           (mkResume [] (Some [])
              (Some match profileImage with
                    | Some (c :: img) => c :: img
                    | _ => []
                    end)
              (mkContact (Some []) (Some []) (Some []) (Some []))
              [] [] [] (Some []) (Some []) (Some []) (Some []) (Some [])
              (Some []) (Some []) None)
       ∧ Api.respond profileImage parsed = Api.respond profileImage (Js.Obj [])).
Proof.
  split.
  - intros Hf. unfold Api.respond. by rewrite Hf.
  - intros Ht Hobj. unfold Api.respond. rewrite Ht.
    destruct parsed as [| |b|s|l|fields]; try discriminate Ht.
    + by destruct profileImage as [[|c img]|].
    + by destruct profileImage as [[|c img]|].
    + by destruct profileImage as [[|c img]|].
    + by destruct (Hobj fields).
Qed.

Lemma list_step_throws {B} fields key l (f : Js.value → Js.completion B) :
  Js.own (lit key) fields = Some (Js.Arr l) →
  (Js.Null ∈ l ∨ Js.Undefined ∈ l) →
  f Js.Null = Js.Throw Js.TypeError → f Js.Undefined = Js.Throw Js.TypeError →
  ∃ e, (Js.Get (Js.Obj fields) (lit key) ≫= λ a, Api.map_if_array a f) = Js.Throw e.
Proof.
  intros Hown Hin Hn Hu. unfold Js.Get. rewrite Hown.
  cbn [from_option Datatypes.id mbind Js.completion_bind Api.map_if_array].
  destruct Hin as [Hin|Hin]; eapply mapM_Throw; eauto.
Qed.

(** X17: one entry that is [null] fails the whole request.  When the
    parsed object holds an array under [experience], [education],
    [certifications] or [volunteer] and some element of that array is
    [null] or [undefined], reading the first field of that element raises
    a [TypeError] and the route answers with status 500, whatever the rest
    of the object is. *)
Theorem null_entry_is_answered_with_500 (profileImage : option jstring)
    (fields : list (jstring * Js.value)) (key : string) (l : list Js.value) :
  key ∈ ["experience"; "education"; "certifications"; "volunteer"]%string →
  Js.own (lit key) fields = Some (Js.Arr l) →
  Js.Null ∈ l ∨ Js.Undefined ∈ l →
  Api.respond profileImage (Js.Obj fields) = Api.Status500.
Proof.
  intros Hkey Hown Hin. unfold Api.respond.
  change (Js.ToBoolean (Js.Obj fields)) with true. cbv iota.
  pose proof (entry_of_nullish_throws Js.Null (or_introl eq_refl)) as (N1&N2&N3&N4).
  pose proof (entry_of_nullish_throws Js.Undefined (or_intror eq_refl))
    as (U1&U2&U3&U4).
  unfold Api.normalized.
  repeat (apply elem_of_cons in Hkey as [->|Hkey]); [..|by apply elem_of_nil in Hkey].
  - destruct (list_step_throws fields _ l _ Hown Hin N1 U1) as [e ->].
    repeat bind_step. done.
  - destruct (list_step_throws fields _ l _ Hown Hin N2 U2) as [e ->].
    repeat bind_step. done.
  - destruct (list_step_throws fields _ l _ Hown Hin N3 U3) as [e ->].
    repeat bind_step. done.
  - destruct (list_step_throws fields _ l _ Hown Hin N4 U4) as [e ->].
    repeat bind_step. done.
Qed.

(** An [experience] array whose only element is [null]. *)
Lemma null_entry_is_answered_with_500_witness :
  Api.respond None (Js.Obj [(lit "name", Js.Str (lit "Ada"));
                            (lit "experience", Js.Arr [Js.Null])])
  = Api.Status500.
Proof.
  apply (null_entry_is_answered_with_500 None _ "experience" [Js.Null]).
  - apply elem_of_cons. by left.
  - reflexivity.
  - left. apply elem_of_cons. by left.
Defined.

Lemma Get_truthy (parsed : Js.value) :
  Js.ToBoolean parsed = true →
  ∃ get : string → Js.value, ∀ key, Js.Get parsed (lit key) = Js.Normal (get key).
Proof.
  intros Ht. destruct parsed as [| |b|s|l|fields]; try discriminate Ht;
    try (by exists (λ _, Js.Undefined)).
  by exists (λ key, default Js.Undefined (Js.own (lit key) fields)).
Qed.

Ltac list_length Hget :=
  lazymatch goal with
  | H : (Js.Get _ (lit ?k) ≫= _) = Js.Normal ?x |- length ?x = length (Api.elements (_ ?k)) =>
      let a := fresh "a" in
      let Ha := fresh "Ha" in
      let Hm := fresh "Hm" in
      apply bind_Normal_inv in H as (a & Ha & Hm);
      rewrite Hget in Ha; injection Ha as <-;
      exact (map_if_array_length _ _ _ Hm)
  end.

(** X18: whatever was parsed, a resume answered with status 200 is
    complete.  Every optional field of the resume and of its contact is
    present and there is no layout, so none of the defaults of
    [preprocessResume] for a missing list is needed on it; and every list
    of the resume has exactly as many entries as the array the parsed value
    holds under the same key, none when that property is not an array. *)
Theorem answered_resume_is_complete (profileImage : option jstring)
    (parsed : Js.value) (r : ResumeData) :
  Api.respond profileImage parsed = Api.Status200 r →
  (is_Some (title r) ∧ is_Some (photoUrl r)
   ∧ is_Some (phone (contact r)) ∧ is_Some (email (contact r))
   ∧ is_Some (address (contact r)) ∧ is_Some (linkedin (contact r))
   ∧ _layout r = None)
  ∧ ∃ get : string → Js.value,
      (∀ key, Js.Get parsed (lit key) = Js.Normal (get key))
      ∧ length (experience r) = length (Api.elements (get "experience"))
      ∧ length (education r) = length (Api.elements (get "education"))
      ∧ (∃ l, certifications r = Some l
              ∧ length l = length (Api.elements (get "certifications")))
      ∧ (∃ l, achivements r = Some l
              ∧ length l = length (Api.elements (get "achivements")))
      ∧ (∃ l, volunteer r = Some l
              ∧ length l = length (Api.elements (get "volunteer")))
      ∧ (∃ l, skills r = Some l ∧ length l = length (Api.elements (get "skills")))
      ∧ (∃ l, softSkills r = Some l
              ∧ length l = length (Api.elements (get "softSkills")))
      ∧ (∃ l, languages r = Some l
              ∧ length l = length (Api.elements (get "languages")))
      ∧ (∃ l, interests r = Some l
              ∧ length l = length (Api.elements (get "interests"))).
Proof.
  unfold Api.respond. destruct (Js.ToBoolean parsed) eqn:Ht; [|done].
  destruct (Api.normalized profileImage parsed) as [r'|] eqn:Hn; [|done].
  intros [= ->]. destruct (Get_truthy parsed Ht) as [get Hget].
  unfold Api.normalized, Api.strings in Hn.
  repeat (apply bind_Normal_inv in Hn as (? & ? & Hn)).
  injection Hn as <-.
  cbn [title photoUrl contact phone email address linkedin _layout experience
       education certifications achivements volunteer skills softSkills
       languages interests].
  split; [by split_and!|].
  exists get. split; [done|].
  split_and!; try (eexists; split; [reflexivity|]); list_length Hget.
Qed.

(** A parsed object that holds one skill and nothing else. *)
Lemma answered_resume_is_complete_witness :
  is_Some (title (mkResume [] (Some []) (Some [])
                    (mkContact (Some []) (Some []) (Some []) (Some []))
                    [] [] [] (Some []) (Some []) (Some []) (Some [lit "Go"])
                    (Some []) (Some []) (Some []) None)).
Proof.
  exact (proj1 (proj1 (answered_resume_is_complete None
                         (Js.Obj [(lit "skills", Js.Arr [Js.Str (lit "Go")])])
                         _ eq_refl))).
Defined.

(** ** The deep copy, on untyped values *)

Lemma value_nested_ind (P : Js.value → Prop) :
  P Js.Undefined → P Js.Null → (∀ b, P (Js.Bool b)) → (∀ s, P (Js.Str s)) →
  (∀ l, Forall P l → P (Js.Arr l)) →
  (∀ fields, Forall (λ kv, P kv.2) fields → P (Js.Obj fields)) →
  ∀ v, P v.
Proof.
  intros HU HN HB HS HA HO. fix IH 1. intros [| |b|s|l|fields].
  - exact HU.
  - exact HN.
  - apply HB.
  - apply HS.
  - apply HA. induction l as [|x l IHl]; constructor; [apply IH|exact IHl].
  - apply HO. induction fields as [|[k x] fields IHf]; constructor;
      [apply IH|exact IHf].
Qed.

Lemma Undefined_or_not (x : Js.value) : x = Js.Undefined ∨ x ≠ Js.Undefined.
Proof. destruct x; (by left) || (by right). Qed.

Lemma JSON_clone_defined (v : Js.value) :
  v ≠ Js.Undefined →
  ∃ v', Js.JSON_clone v = Js.Normal v'
        ∧ is_json v' = true
        ∧ (is_json v = true → v' = v).
Proof.
  induction v as [| |b|s|l IH|fields IH] using value_nested_ind; intros Hv.
  - done.
  - by exists Js.Null.
  - by exists (Js.Bool b).
  - by exists (Js.Str s).
  - cbn [Js.JSON_clone is_json].
    match goal with |- context [mbind _ (?f l)] => set (clone_all := f) end.
    assert (∃ ys, clone_all l = Js.Normal ys
                  ∧ forallb is_json ys = true
                  ∧ (forallb is_json l = true → ys = l)) as (ys & -> & Hj & Hid).
    { clear Hv. induction IH as [|x l Hx _ IHl]; [by exists []|].
      destruct IHl as (ys & Hys & Hj & Hid).
      destruct (Undefined_or_not x) as [->|Hne].
      - exists (Js.Null :: ys). cbn. cbn in Hys. rewrite Hys.
        split; [done|]. split; [done|]. done.
      - destruct (Hx Hne) as (y & Hy & Hyj & Hyid).
        exists (y :: ys). split_and!.
        + destruct x; try done; cbn; cbn in Hy, Hys; rewrite ?Hy, Hys; try done;
            by injection Hy as <-.
        + cbn. by rewrite Hyj, Hj.
        + cbn. intros [H1 H2]%andb_prop. by rewrite Hyid, Hid. }
    cbn [mbind Js.completion_bind]. exists (Js.Arr ys). split_and!; [done..|].
    intros H. by rewrite Hid.
  - cbn [Js.JSON_clone is_json].
    match goal with |- context [mbind _ (?f fields)] => set (clone_all := f) end.
    assert (∃ ys, clone_all fields = Js.Normal ys
                  ∧ forallb (λ kv, is_json kv.2) ys = true
                  ∧ (forallb (λ kv, is_json kv.2) fields = true → ys = fields))
      as (ys & -> & Hj & Hid).
    { clear Hv. induction IH as [|[k x] fs Hx _ IHl]; [by exists []|].
      destruct IHl as (ys & Hys & Hj & Hid). cbn [snd] in Hx.
      destruct (Undefined_or_not x) as [->|Hne].
      - exists ys. cbn. cbn in Hys. rewrite Hys. done.
      - destruct (Hx Hne) as (y & Hy & Hyj & Hyid).
        exists ((k, y) :: ys). split_and!.
        + destruct x; try done; cbn; cbn in Hy, Hys; rewrite ?Hy, Hys; try done;
            by injection Hy as <-.
        + cbn. by rewrite Hyj, Hj.
        + cbn. intros [H1 H2]%andb_prop. by rewrite Hyid, Hid. }
    cbn [mbind Js.completion_bind]. exists (Js.Obj ys). split_and!; [done..|].
    intros H. by rewrite Hid.
Qed.

(** X19: the deep copy at the head of [preprocessResume] cannot fail.
    For every input, [JSON.parse(JSON.stringify(input || {}))] returns a
    value; the value contains no [undefined] and copying it again returns
    it unchanged; a falsy input gives the empty object; and an input that a
    JSON text denotes is copied exactly.  Without the [|| {}] the copy of
    [undefined] raises a [SyntaxError]. *)
Theorem deep_copy_never_raises (input : Js.value) :
  (∃ data, Js.JSON_clone (Js.or_else input (Js.Obj [])) = Js.Normal data
     ∧ is_json data = true
     ∧ Js.JSON_clone data = Js.Normal data
     ∧ (Js.ToBoolean input = false → data = Js.Obj [])
     ∧ (Js.ToBoolean input = true → is_json input = true → data = input))
  ∧ Js.JSON_clone Js.Undefined = Js.Throw Js.SyntaxError.
Proof.
  split; [|done].
  assert (Js.or_else input (Js.Obj []) ≠ Js.Undefined) as Hne.
  { unfold Js.or_else. destruct input as [| |[]|[]| |]; done. }
  destruct (JSON_clone_defined _ Hne) as (data & Hd & Hj & Hid).
  exists data. split_and!; [done..| | |].
  - assert (data ≠ Js.Undefined) as Hne' by (intros ->; done).
    destruct (JSON_clone_defined _ Hne') as (data' & Hd' & _ & Hid').
    by rewrite Hd', (Hid' Hj).
  - intros Hf. unfold Js.or_else in Hd. rewrite Hf in Hd. by injection Hd as <-.
  - intros Ht Hin. unfold Js.or_else in Hid. rewrite Ht in Hid. by apply Hid.
Qed.

Lemma forallb_fmap_true {A B} (f : A → B) (p : B → bool) (l : list A) :
  (∀ x, p (f x) = true) → forallb p (f <$> l) = true.
Proof.
  intros Hp. induction l as [|x l IH]; [done|].
  cbn [fmap list_fmap forallb]. fold (f <$> l). by rewrite Hp, IH.
Qed.

Lemma forallb_of_optional (fs : list (jstring * option Js.value)) :
  Forall (λ kv, ∀ v, kv.2 = Some v → is_json v = true) fs →
  forallb (λ kv, is_json kv.2) (Api.of_optional fs) = true.
Proof.
  induction 1 as [|[k [v|]] fs Hv _ IH]; [done|..].
  - change (Api.of_optional ((k, Some v) :: fs)) with ((k, v) :: Api.of_optional fs).
    cbn [forallb snd]. by rewrite (Hv v eq_refl), IH.
  - exact IH.
Qed.

Lemma is_json_strings (l : list jstring) : is_json (Js.Arr (Js.Str <$> l)) = true.
Proof. cbn [is_json]. by apply forallb_fmap_true. Qed.

Lemma is_json_optional {A} (f : A → Js.value) (o : option A) v :
  (∀ x, is_json (f x) = true) → f <$> o = Some v → is_json v = true.
Proof. intros Hf. destruct o; intros [= <-]. apply Hf. Qed.

Lemma is_json_of_resume (d : ResumeData) : is_json (Api.of_resume d) = true.
Proof.
  unfold Api.of_resume. cbn [is_json]. apply forallb_of_optional.
  repeat apply Forall_cons_2; try apply Forall_nil_2; cbn [snd]; intros v.
  - by intros [= <-].
  - by apply is_json_optional.
  - by apply is_json_optional.
  - intros [= <-]. unfold Api.of_contact. cbn [is_json]. apply forallb_of_optional.
    repeat apply Forall_cons_2; try apply Forall_nil_2; cbn [snd]; intros w;
      by apply is_json_optional.
  - by intros [= <-].
  - intros [= <-]. cbn [is_json]. apply forallb_fmap_true. intros e.
    unfold Js.of_experience. cbn [is_json forallb snd andb].
    by rewrite forallb_fmap_true.
  - intros [= <-]. cbn [is_json]. by apply forallb_fmap_true.
  - apply is_json_optional. intros l. cbn [is_json]. apply forallb_fmap_true.
    intros c. unfold Api.of_certification. cbn [is_json].
    apply forallb_of_optional.
    repeat apply Forall_cons_2; try apply Forall_nil_2; cbn [snd]; intros w.
    + by intros [= <-].
    + by apply is_json_optional.
  - apply is_json_optional, is_json_strings.
  - apply is_json_optional. intros l. cbn [is_json]. apply forallb_fmap_true.
    intros c. unfold Api.of_volunteer. cbn [is_json].
    apply forallb_of_optional.
    repeat apply Forall_cons_2; try apply Forall_nil_2; cbn [snd]; intros w.
    + by intros [= <-].
    + by intros [= <-].
    + by apply is_json_optional.
    + intros [= <-]. apply is_json_strings.
  - apply is_json_optional, is_json_strings.
  - apply is_json_optional, is_json_strings.
  - apply is_json_optional, is_json_strings.
  - apply is_json_optional, is_json_strings.
Qed.

(** X20: the untyped head of [preprocessResume] agrees with the typed
    function.  Run on the object that a typed resume is at run time, the
    code from the deep copy to the computation of [expLen] returns the
    [expLen] of the typed density; run on any input that is not an object
    (null, undefined, a boolean, a string, an array) it returns 0 without
    raising. *)
Theorem untyped_head_agrees_with_typed (d : ResumeData) :
  Js.preprocessResume_expLen (Api.of_resume d) = Js.Normal (expLen d)
  ∧ ∀ input, (∀ fields, input ≠ Js.Obj fields) →
      Js.preprocessResume_expLen input = Js.Normal 0.
Proof.
  split.
  - unfold Js.preprocessResume_expLen.
    change (Js.or_else (Api.of_resume d) (Js.Obj [])) with (Api.of_resume d).
    destruct (JSON_clone_defined (Api.of_resume d) ltac:(done)) as (v' & -> & _ & Hid).
    rewrite (Hid (is_json_of_resume d)). cbn [mbind Js.completion_bind].
    destruct (Get_of_resume d) as (_&_&_&_&_&E&_). cbv zeta in E. rewrite E.
    cbn [mbind Js.completion_bind]. by rewrite Js_joinExpText_typed.
  - intros input Hno. unfold Js.preprocessResume_expLen.
    destruct input as [| |[]|[|c s]|l|fields]; try reflexivity.
    + change (Js.or_else (Js.Arr l) (Js.Obj [])) with (Js.Arr l).
      destruct (JSON_clone_defined (Js.Arr l) ltac:(done)) as (v' & Hv' & _).
      rewrite Hv'. cbn [Js.JSON_clone] in Hv'.
      apply bind_Normal_inv in Hv' as (ys & _ & [= <-]). reflexivity.
    + by destruct (Hno fields).
Qed.

(** ** The scale of the modern template *)

(** X21: the scale [fitToPage] of [modern.tsx] sets is always between
    0.65 and 1.  It is 1 exactly when the container, less 28 pixels, is at
    least as wide as the content and as 760 pixels; it is 0.65 for every
    container of at most 522 pixels; and it never grows when the container
    narrows or the content widens. *)
Theorem fitToPage_scale_is_between_065_and_1 (containerW contentW : R) :
  (0.65 <= Template.fitToPage containerW contentW <= 1)%R
  ∧ (Template.fitToPage containerW contentW = 1%R
     ↔ (Rmax contentW 760 <= containerW - 28)%R)
  ∧ ((containerW <= 522)%R → Template.fitToPage containerW contentW = 0.65%R)
  ∧ (∀ containerW' contentW',
       (containerW' <= containerW)%R → (contentW <= contentW')%R →
       (Template.fitToPage containerW' contentW'
        <= Template.fitToPage containerW contentW)%R).
Proof.
  unfold Template.fitToPage, Template.MIN_SCALE, Template.INNER_WIDTH. cbv zeta.
  assert (∀ c, 760 <= Rmax c 760)%R as Hmax by (intros c; apply Rmax_r).
  assert (∀ a c, a / Rmax c 760 * Rmax c 760 = a)%R as Hdiv.
  { intros a c. specialize (Hmax c). field. lra. }
  split; [|split; [|split]].
  - destruct (Rlt_dec _ _) as [Hlt|Hge]; [lra|].
    split; [lra|apply Rmin_l].
  - pose proof (Hmax contentW) as Hm. pose proof (Hdiv (containerW - 28)%R contentW) as Hd.
    set (q := ((containerW - 28) / Rmax contentW 760)%R) in *.
    split.
    + intros H1. destruct (Rlt_dec _ _) as [Hlt|Hge]; [lra|].
      assert (1 <= q)%R as Hq.
      { destruct (Rle_dec 1 q) as [|Hn]; [done|].
        rewrite Rmin_right in H1 by lra. lra. }
      nra.
    + intros Hle. assert (1 <= q)%R as Hq by nra.
      rewrite Rmin_left by done. destruct (Rlt_dec _ _); [lra|done].
  - intros Hc. pose proof (Hmax contentW) as Hm.
    pose proof (Hdiv (containerW - 28)%R contentW) as Hd.
    set (q := ((containerW - 28) / Rmax contentW 760)%R) in *.
    assert (q <= 0.65)%R as Hq by nra.
    destruct (Rlt_dec _ _) as [Hlt|Hge]; [done|].
    rewrite Rmin_right in Hge |- * by lra. lra.
  - intros containerW' contentW' Hc Hw.
    pose proof (Hmax contentW) as Hm. pose proof (Hmax contentW') as Hm'.
    pose proof (Hdiv (containerW - 28)%R contentW) as Hd.
    pose proof (Hdiv (containerW' - 28)%R contentW') as Hd'.
    assert (Rmax contentW 760 <= Rmax contentW' 760)%R as Hmm.
    { apply Rmax_lub; [etrans; [exact Hw|apply Rmax_l]|apply Rmax_r]. }
    set (q := ((containerW - 28) / Rmax contentW 760)%R) in *.
    set (q' := ((containerW' - 28) / Rmax contentW' 760)%R) in *.
    pose proof (Rmin_l 1 q) as Hl. pose proof (Rmin_l 1 q') as Hl'.
    pose proof (Rmin_r 1 q') as Hr'.
    destruct (Rlt_dec (Rmin 1 q') _) as [Hlt'|Hge'].
    { destruct (Rlt_dec (Rmin 1 q) _); lra. }
    assert (q' <= q)%R as Hqq.
    { destruct (Rle_dec q' q) as [|Hn]; [done|]. nra. }
    assert (Rmin 1 q' <= Rmin 1 q)%R as Hmin.
    { apply Rmin_glb; [apply Rmin_l|etrans; [apply Rmin_r|done]]. }
    destruct (Rlt_dec (Rmin 1 q) _); lra.
Qed.

(** ** Repeated calls, on references *)

(** X22: every call makes an object of its own.  Two calls on the same
    resume object return two different references, both different from the
    input, that hold equal results; and a call on the result of an earlier
    call stores the second pass at a third reference and leaves the first
    result, like the input, as it was. *)
Theorem every_call_makes_its_own_object
    (h : gmap positive ProcessedResume) (input : positive) (r : ProcessedResume) :
  h !! input = Some r →
  ∃ out1 h1,
    Heap.preprocessResume input h = Some (out1, h1)
    ∧ (∃ out2 h2,
         Heap.preprocessResume input h1 = Some (out2, h2)
         ∧ out1 ≠ out2 ∧ out1 ≠ input ∧ out2 ≠ input
         ∧ h2 !! out1 = Some (preprocessResume r)
         ∧ h2 !! out2 = Some (preprocessResume r)
         ∧ h2 !! input = Some r)
    ∧ (∃ out3 h3,
         Heap.preprocessResume out1 h1 = Some (out3, h3)
         ∧ out3 ≠ out1 ∧ out3 ≠ input
         ∧ h3 !! out3 = Some (preprocessResume (preprocessResume r))
         ∧ h3 !! out1 = Some (preprocessResume r)
         ∧ h3 !! input = Some r).
Proof.
  intros Hin. set (o1 := fresh (dom h)).
  set (h1 := <[o1 := preprocessResume r]> h).
  assert (h !! o1 = None) as Hfresh by apply not_elem_of_dom, is_fresh.
  assert (o1 ≠ input) as Hne1 by congruence.
  assert (h1 !! input = Some r) as Hin1.
  { unfold h1. by rewrite lookup_insert_ne. }
  assert (h1 !! o1 = Some (preprocessResume r)) as Ho1 by apply lookup_insert_eq.
  set (o2 := fresh (dom h1)).
  assert (h1 !! o2 = None) as Hfresh2 by apply not_elem_of_dom, is_fresh.
  assert (o2 ≠ o1) as Hne2 by congruence.
  assert (o2 ≠ input) as Hne3 by congruence.
  exists o1, h1. split; [by apply Heap_preprocessResume_run|]. split.
  - exists o2, (<[o2 := preprocessResume r]> h1).
    split; [by apply Heap_preprocessResume_run|].
    split_and!; [done..| | |].
    + by rewrite lookup_insert_ne.
    + apply lookup_insert_eq.
    + by rewrite lookup_insert_ne.
  - exists o2, (<[o2 := preprocessResume (preprocessResume r)]> h1).
    split; [by apply Heap_preprocessResume_run|].
    split_and!; [done..| | |].
    + apply lookup_insert_eq.
    + by rewrite lookup_insert_ne.
    + by rewrite lookup_insert_ne.
Qed.

(** Two calls on a store that holds one resume. *)
Lemma every_call_makes_its_own_object_witness :
  ∃ out1 h1,
    Heap.preprocessResume 1%positive {[ 1%positive := seven_jobs ]} = Some (out1, h1)
    ∧ (∃ out2 h2,
         Heap.preprocessResume 1%positive h1 = Some (out2, h2)
         ∧ out1 ≠ out2 ∧ out1 ≠ 1%positive ∧ out2 ≠ 1%positive
         ∧ h2 !! out1 = Some (preprocessResume seven_jobs)
         ∧ h2 !! out2 = Some (preprocessResume seven_jobs)
         ∧ h2 !! 1%positive = Some seven_jobs)
    ∧ (∃ out3 h3,
         Heap.preprocessResume out1 h1 = Some (out3, h3)
         ∧ out3 ≠ out1 ∧ out3 ≠ 1%positive
         ∧ h3 !! out3 = Some (preprocessResume (preprocessResume seven_jobs))
         ∧ h3 !! out1 = Some (preprocessResume seven_jobs)
         ∧ h3 !! 1%positive = Some seven_jobs).
Proof.
  apply (every_call_makes_its_own_object {[ 1%positive := seven_jobs ]} 1%positive
           seven_jobs).
  reflexivity.
Defined.
